(** * Batch dispatch and keyed persistence of the castle narrative generator

    A shallow embedding of [ScalableCastleProcessor] from
    [automated-cultural-narrative-generator.py]: the SQLite sink
    ([setup_database], [_store_narrative]), the per-batch dispatcher
    ([process_castle_batch]) and the batching driver
    ([process_thousands_of_castles]).

    Python effects are threaded through a state-and-exception monad over
    a [World] holding the database file, the wall clock, the records
    emitted through [logger], and an instrumentation trace of task
    starts, task completions and sleeps. *)

From Stdlib Require Import ZArith List String QArith Lia Bool Arith.
From Stdlib Require Import DecimalString Permutation.
From Stdlib Require Import PrimFloat Ascii.
Import ListNotations.

Close Scope Q_scope.
Local Open Scope string_scope.
Local Open Scope list_scope.
Local Open Scope Z_scope.

(** ** Python values used by the dispatcher *)

Module Py.

(** An exception object, an instance of a subclass of [Exception]: its
    class name and [str(e)]. *)
Record Exception := mkException { exc_class : string; exc_text : string }.

Definition ValueError (msg : string) : Exception := mkException "ValueError" msg.
Definition IndexError (msg : string) : Exception := mkException "IndexError" msg.
Definition OperationalError (msg : string) : Exception :=
  mkException "sqlite3.OperationalError" msg.
Definition InvalidStateError (msg : string) : Exception :=
  mkException "asyncio.InvalidStateError" msg.

(** [str(n)] for an int. *)
Definition str_int (z : Z) : string := NilZero.string_of_int (Z.to_int z).

(** [len(l)]. *)
Definition len {A} (l : list A) : Z := Z.of_nat (List.length l).

(** Number of elements of [range(start, stop, step)], [step <> 0]. *)
Definition range_len (start stop step : Z) : Z :=
  if 0 <? step
  then (if start <? stop then (stop - start - 1) / step + 1 else 0)
  else (if stop <? start then (start - stop - 1) / (- step) + 1 else 0).

(** [range(start, stop, step)]; a zero step raises [ValueError]. *)
Definition range (start stop step : Z) : Exception + list Z :=
  if step =? 0
  then inl (ValueError "range() arg 3 must not be zero")
  else inr (map (fun k => start + Z.of_nat k * step)
                (seq 0 (Z.to_nat (range_len start stop step)))).

(** A slice bound clipped the way [l[lo:hi]] clips it. *)
Definition clip (n i : Z) : Z :=
  if i <? 0 then Z.max 0 (i + n) else Z.min i n.

(** [l[lo:hi]]. *)
Definition slice {A} (l : list A) (lo hi : Z) : list A :=
  let a := clip (len l) lo in
  let b := clip (len l) hi in
  firstn (Z.to_nat (b - a)) (skipn (Z.to_nat a) l).

(** [enumerate(l)]. *)
Definition enumerate {A} (l : list A) : list (nat * A) :=
  combine (seq 0 (List.length l)) l.

End Py.
Import Py.

(** ** Data model *)

(** The [CastleData] dataclass. *)
Record CastleData := mkCastleData {
  name : string;
  location : string;
  country : string;
  built_year : option Z;
  architectural_style : string;
  historical_periods : list string;
  notable_rulers : list string;
  military_events : list string;
  coordinates : option (Q * Q);
  external_sources : list string;
  raw_data : list (string * string)
}.

(** The narrative dict built by [process_single_castle]: the keys the
    dispatcher and the sink read, and the generated sections as text. *)
Record Narrative := mkNarrative {
  castle_name : string;
  sections : string;
  dataQuality : Q
}.

(** ** The SQLite file *)

Module SqlRow.
(** A row of [castle_narratives]; every column but the key is nullable. *)
Record t := mk {
  id : Z;
  castle_name : string;
  country : option string;
  generated_narrative : option string;
  processing_timestamp : option Q;
  source_data : option string;
  quality_score : option Q
}.
End SqlRow.

(** A table: the statement that created it, its rows in rowid order, and
    its [sqlite_sequence] counter (the largest rowid ever handed out). *)
Record Table := mkTable {
  sql : string;
  rows : list SqlRow.t;
  seq_no : Z
}.

(** A database file: its tables by name, in creation order. *)
Definition Database := list (string * Table).

Definition castle_narratives_ddl : string :=
  "CREATE TABLE castle_narratives (id INTEGER PRIMARY KEY AUTOINCREMENT, castle_name TEXT UNIQUE, country TEXT, generated_narrative TEXT, processing_timestamp REAL, source_data TEXT, quality_score REAL)".

Fixpoint lookup_table (tbl : string) (db : Database) : option Table :=
  match db with
  | [] => None
  | (n, t) :: rest => if String.eqb n tbl then Some t else lookup_table tbl rest
  end.

Fixpoint update_table (tbl : string) (t' : Table) (db : Database) : Database :=
  match db with
  | [] => []
  | (n, t) :: rest =>
      if String.eqb n tbl then (n, t') :: rest
      else (n, t) :: update_table tbl t' rest
  end.

(** [CREATE TABLE IF NOT EXISTS tbl (...)]: only the name is looked at. *)
Definition create_table_if_not_exists (tbl ddl : string) (db : Database) : Database :=
  match lookup_table tbl db with
  | Some _ => db
  | None => db ++ [(tbl, mkTable ddl [] 0)]
  end.

Definition max_rowid (rs : list SqlRow.t) : Z :=
  fold_right (fun r m => Z.max (SqlRow.id r) m) 0 rs.

Definition conflicts (key : string) (r : SqlRow.t) : bool :=
  String.eqb (SqlRow.castle_name r) key.

(** [INSERT OR REPLACE INTO t (castle_name, country, generated_narrative,
    processing_timestamp, quality_score) VALUES (...)]: rows that clash on
    the UNIQUE column are deleted, the new row gets a fresh rowid and the
    columns left out are NULL. *)
Definition insert_or_replace (t : Table)
    (key : string) (ctry narr : option string) (ts q : option Q) : Table :=
  let rowid := Z.max (seq_no t) (max_rowid (rows t)) + 1 in
  mkTable (sql t)
          (filter (fun r => negb (conflicts key r)) (rows t)
             ++ [SqlRow.mk rowid key ctry narr ts None q])
          rowid.

(** ** The world and the effect monad *)

Inductive Level := INFO | WARNING | ERROR.

Record LogRecord := mkLog { levelname : Level; message : string }.

(** Instrumentation: a task began to run, a task settled (returned or
    raised), the dispatcher slept. *)
Inductive Event :=
| Started (task : nat)
| Settled (task : nat)
| Slept (seconds : Q).

Record World := mkWorld {
  database : Database;
  clock : Q;
  log : list LogRecord;
  trace : list Event;
  next_task : nat
}.

Definition M (A : Type) : Type := World -> (Exception + A) * World.

Definition ret {A} (a : A) : M A := fun w => (inr a, w).

Definition bind {A B} (m : M A) (k : A -> M B) : M B :=
  fun w => match m w with
           | (inr a, w') => k a w'
           | (inl e, w') => (inl e, w')
           end.

Definition raise {A} (e : Exception) : M A := fun w => (inl e, w).

(** [try: m except Exception as e: h e]. *)
Definition try_except {A} (m : M A) (h : Exception -> M A) : M A :=
  fun w => match m w with
           | (inr a, w') => (inr a, w')
           | (inl e, w') => h e w'
           end.

(** A task awaited with [return_exceptions=True]: the exception is a value. *)
Definition settle {A} (m : M A) : M (Exception + A) :=
  fun w => let (r, w') := m w in (inr r, w').

Definition lift {A} (r : Exception + A) : M A := fun w => (r, w).

Declare Scope py_scope.
Delimit Scope py_scope with py.
Notation "x <- m ;; k" := (bind m (fun x => k))
  (at level 61, m at next level, right associativity) : py_scope.
Notation "m ;; k" := (bind m (fun _ => k))
  (at level 61, right associativity) : py_scope.
Local Open Scope py_scope.

Definition result {A} (m : M A) (w : World) : Exception + A := fst (m w).
Definition after {A} (m : M A) (w : World) : World := snd (m w).

(** [for x in xs: acc = body x acc]. *)
Fixpoint for_each {A S} (xs : list A) (body : A -> S -> M S) (acc : S) : M S :=
  match xs with
  | [] => ret acc
  | x :: rest => acc' <- body x acc ;; for_each rest body acc'
  end.

Definition logger_emit (lvl : Level) (msg : string) : M unit :=
  fun w => (inr tt, mkWorld (database w) (clock w) (log w ++ [mkLog lvl msg])
                            (trace w) (next_task w)).

Definition logger_info := logger_emit INFO.
Definition logger_error := logger_emit ERROR.

Definition emit (e : Event) : M unit :=
  fun w => (inr tt, mkWorld (database w) (clock w) (log w)
                            (trace w ++ [e]) (next_task w)).

(** [time.time()]. *)
Definition time_time : M Q := fun w => (inr (clock w), w).

(** [await asyncio.sleep(d)]. *)
Definition asyncio_sleep (d : Q) : M unit :=
  fun w => (inr tt, mkWorld (database w) (Qred (clock w + d)) (log w)
                            (trace w ++ [Slept d]) (next_task w)).

(** [asyncio.create_task]: tasks are numbered in creation order. *)
Definition create_task : M nat :=
  fun w => (inr (next_task w),
            mkWorld (database w) (clock w) (log w) (trace w) (S (next_task w))).

Definition sqlite_update (f : Database -> Exception + Database) : M unit :=
  fun w => match f (database w) with
           | inr db' => (inr tt, mkWorld db' (clock w) (log w) (trace w) (next_task w))
           | inl e => (inl e, w)
           end.

(** The stand-in data of [_load_external_castle_data]. *)
Definition sample_castles (source_path : string) : list CastleData :=
  [ mkCastleData "Windsor Castle" "Windsor, England" "United Kingdom"
      (Some 1070) "Norman"
      ["Norman"; "Medieval"; "Tudor"]
      ["William the Conqueror"; "Edward III"; "Henry VIII"]
      ["English Civil War"; "World War II"]
      (Some ((514839 # 10000)%Q, (- 6044 # 10000)%Q))
      ["Wikipedia"; "Historic England"; "Royal Collection"]
      [] ].

(** ** A worked example: three items, the second one fails *)

Definition example_castle (key : string) : CastleData :=
  mkCastleData key "" "" None "" [] [] [] None [] [].

Definition example_generate (castle : CastleData) : Exception + Narrative :=
  if String.eqb (name castle) "X2"
  then inl (mkException "RuntimeError" "boom")
  else inr (mkNarrative (name castle) "text" (1 # 2)%Q).

Definition example_json_dumps (narrative : Narrative) : string :=
  ("{" ++ castle_name narrative ++ ": " ++ sections narrative ++ "}")%string.

(** Later tasks answer first. *)
Definition example_latency (task : nat) : nat := (10 - task)%nat.

Definition example_pipeline (source_path : string) : list CastleData :=
  if String.eqb source_path "two"
  then [example_castle "X1"; example_castle "X3"]
  else [example_castle "X1"; example_castle "X2"; example_castle "X3"].

(** A world whose database already went through [setup_database]. *)
Definition ready_world : World :=
  mkWorld [("castle_narratives", mkTable castle_narratives_ddl [] 0)] 0%Q [] [] 0.


(** ** Observations used in the statements *)

(** The sink accepts writes: the table of narratives exists. *)
Definition sink_ready (db : Database) : bool :=
  match lookup_table "castle_narratives" db with
  | Some _ => true
  | None => false
  end.

(** Rows of the narratives table (none when the table is missing). *)
Definition sink_rows (db : Database) : list SqlRow.t :=
  match lookup_table "castle_narratives" db with
  | Some t => rows t
  | None => []
  end.

Definition rows_for (key : string) (db : Database) : list SqlRow.t :=
  filter (conflicts key) (sink_rows db).

(** The narratives among gathered results, in order. *)
Definition successes (results : list (Exception + Narrative)) : list Narrative :=
  flat_map (fun r => match r with inr n => [n] | inl _ => [] end) results.

Definition raised {A} (r : Exception + A) : bool :=
  match r with inl _ => true | inr _ => false end.

(** The record [process_castle_batch] logs for a failed item. *)
Definition failure_record (castle : CastleData) (exc : Exception) : LogRecord :=
  mkLog ERROR ("Error processing " ++ name castle ++ ": " ++ exc_text exc)%string.

Definition failure_records (castle_batch : list CastleData)
    (results : list (Exception + Narrative)) : list LogRecord :=
  flat_map (fun cr => match snd cr with
                      | inl exc => [failure_record (fst cr) exc]
                      | inr _ => []
                      end)
           (combine castle_batch results).

Definition sleeps (tr : list Event) : list Q :=
  flat_map (fun e => match e with Slept d => [d] | _ => [] end) tr.

(** At most one row per key. *)
Definition unique_keys (db : Database) : Prop :=
  NoDup (map SqlRow.castle_name (sink_rows db)).

(** Number of schema objects called [tbl]. *)
Definition table_count (tbl : string) (db : Database) : nat :=
  List.length (filter (fun entry => String.eqb (fst entry) tbl) db).

(** What one item adds to the returned list and to the log. *)
Definition kept (r : Exception + Narrative) : list Narrative :=
  match r with inr n => [n] | inl _ => [] end.

Definition reported (castle : CastleData) (r : Exception + Narrative) : list LogRecord :=
  match r with inr _ => [] | inl exc => [failure_record castle exc] end.

(** Pure sequential slicing: the [k]-th run of [b] consecutive items. *)
Definition chunk {A} (l : list A) (b k : nat) : list A :=
  firstn b (skipn (k * b) l).

(** Every row was written the way [_store_narrative] writes: the country
    is the literal ["Unknown"] and [source_data] is NULL. *)
Definition written_by_store (r : SqlRow.t) : Prop :=
  SqlRow.country r = Some "Unknown" /\ SqlRow.source_data r = None
  /\ SqlRow.generated_narrative r <> None /\ SqlRow.processing_timestamp r <> None
  /\ SqlRow.quality_score r <> None.

(** Primary keys are distinct and none exceeds the sequence counter. *)
Definition ids_in_order (t : Table) : Prop :=
  NoDup (map SqlRow.id (rows t)) /\ Forall (fun r => SqlRow.id r <= seq_no t) (rows t).


(** The keys present in the sink. *)
Definition sink_keys (db : Database) : list string :=
  map SqlRow.castle_name (sink_rows db).

(** ** Python truth values, membership and dicts *)

(** [bool(s)] for a str. *)
Definition truthy_str (s : string) : bool := negb (String.eqb s "").

(** [bool(l)] for a list. *)
Definition truthy_list {A} (l : list A) : bool :=
  match l with [] => false | _ :: _ => true end.

(** [bool(n)] for an optional int: [None] and [0] are false. *)
Definition truthy_int (n : option Z) : bool :=
  match n with Some z => negb (z =? 0) | None => false end.

(** [needle in haystack] on strs. *)
Fixpoint contains (needle haystack : string) : bool :=
  if String.prefix needle haystack then true
  else match haystack with
       | EmptyString => false
       | String _ rest => contains needle rest
       end.

(** A dict with str keys, in insertion order. *)
Definition Dict (V : Type) : Type := list (string * V).

(** [d.get(key)]. *)
Fixpoint dict_get {V} (key : string) (d : Dict V) : option V :=
  match d with
  | [] => None
  | (k, v) :: rest => if String.eqb k key then Some v else dict_get key rest
  end.

(** [d[key] = value]: an existing key keeps its place. *)
Fixpoint dict_set {V} (key : string) (value : V) (d : Dict V) : Dict V :=
  match d with
  | [] => [(key, value)]
  | (k, v) :: rest =>
      if String.eqb k key then (k, value) :: rest
      else (k, v) :: dict_set key value rest
  end.

Definition dict_keys {V} (d : Dict V) : list string := map fst d.

(** ** The quality score *)

#[local] Set Warnings "-inexact-float".

(** [_assess_data_quality], on binary64 floats.  A value of [raw_data]
    is kept as text; the empty text stands for a false value. *)
Definition _assess_data_quality (castle : CastleData) : PrimFloat.float :=
  let score := 0.0%float in
  let score := if truthy_str (name castle) then PrimFloat.add score 0.2%float else score in
  let score := if truthy_str (location castle) then PrimFloat.add score 0.2%float else score in
  let score := if truthy_int (built_year castle) then PrimFloat.add score 0.2%float else score in
  let score := if truthy_str (architectural_style castle)
               then PrimFloat.add score 0.2%float else score in
  let score := if truthy_list (notable_rulers castle)
               then PrimFloat.add score 0.1%float else score in
  let score := if truthy_list (military_events castle)
               then PrimFloat.add score 0.1%float else score in
  let score := if 2 <? len (external_sources castle)
               then PrimFloat.add score 0.1%float else score in
  let score := if match dict_get "wikipedia_summary" (raw_data castle) with
                  | Some v => truthy_str v
                  | None => false
                  end
               then PrimFloat.add score 0.1%float else score in
  if PrimFloat.ltb 1.0%float score then 1.0%float else score.

(** How many of the four core fields and of the four enrichments count. *)
Definition core_fields (castle : CastleData) : Z :=
  Z.b2z (truthy_str (name castle)) + Z.b2z (truthy_str (location castle))
  + Z.b2z (truthy_int (built_year castle))
  + Z.b2z (truthy_str (architectural_style castle)).

Definition enrichments (castle : CastleData) : Z :=
  Z.b2z (truthy_list (notable_rulers castle))
  + Z.b2z (truthy_list (military_events castle))
  + Z.b2z (2 <? len (external_sources castle))
  + Z.b2z (match dict_get "wikipedia_summary" (raw_data castle) with
           | Some v => truthy_str v
           | None => false
           end).

(** ** CulturalNarrativeGenerator *)

Definition _determine_cultural_context (castle : CastleData) : string :=
  if contains "England" (country castle) || contains "Scotland" (country castle)
  then "Anglo-Norman"
  else if contains "France" (country castle) then "French royal"
  else if contains "Germany" (country castle) then "Holy Roman Imperial"
  else if contains "Spain" (country castle) then "Iberian medieval"
  else "European medieval".

Definition _get_primary_period (castle : CastleData) : string :=
  if truthy_int (built_year castle)
  then match built_year castle with
       | Some year =>
           if year <? 1000 then "Early Medieval period"
           else if year <? 1300 then "High Medieval period"
           else if year <? 1500 then "Late Medieval period"
           else "Early Modern period"
       | None => "Medieval period"
       end
  else "Medieval period".

Definition _generate_superlative (castle : CastleData) : string := "finest".

Definition _derive_cultural_meaning (castle : CastleData) : string :=
  let meanings : Dict string :=
    [("Gothic", "spiritual aspiration and divine authority");
     ("Romanesque", "earthly power and defensive strength");
     ("Renaissance", "humanistic ideals and artistic patronage");
     ("Islamic", "geometric perfection and divine unity")] in
  match dict_get (architectural_style castle) meanings with
  | Some meaning => meaning
  | None => "political and cultural authority"
  end.

Definition _generate_ruler_legend (ruler : string) (castle : CastleData) : string :=
  ("The spirit of " ++ ruler ++ " is said to walk the halls of " ++ name castle
     ++ ", especially during times of political upheaval.")%string.

Definition _generate_architectural_legend (castle : CastleData) : string :=
  ("Legend tells that the master builders of " ++ name castle
     ++ " possessed secret knowledge passed down from ancient craftsmen.")%string.

Definition generate_legends (castle : CastleData) : list (Dict string) :=
  let legends :=
    fold_left
      (fun legends ruler =>
         legends ++ [[("title", ("The Spirit of " ++ ruler)%string);
                      ("narrative", _generate_ruler_legend ruler castle);
                      ("historical_context",
                       ("Based on the historical reign of " ++ ruler)%string)]])
      (slice (notable_rulers castle) 0 3) [] in
  if contains "Gothic" (architectural_style castle)
  then legends ++ [[("title", "The Master Builder's Secret");
                    ("narrative", _generate_architectural_legend castle);
                    ("symbolism",
                     "Represents medieval craftsmanship and divine inspiration")]]
  else legends.

Definition _extract_participants (event : string) (castle : CastleData) : string :=
  "Medieval forces vs. defending garrison".

Definition _generate_outcome (event : string) (castle : CastleData) : string :=
  "Strategic victory with lasting political consequences".

Definition _analyze_significance (event : string) (castle : CastleData) : string :=
  "Marked turning point in regional power dynamics".

Definition _describe_tactics (event : string) (castle : CastleData) : string :=
  "Combined siege warfare with diplomatic pressure".

Definition _assess_legacy (event : string) (castle : CastleData) : string :=
  "Influenced subsequent military and political developments".

Definition generate_historical_events (castle : CastleData) : list (Dict string) :=
  fold_left
    (fun events event_name =>
       events ++ [[("name", event_name);
                   ("participants", _extract_participants event_name castle);
                   ("outcome", _generate_outcome event_name castle);
                   ("significance", _analyze_significance event_name castle);
                   ("tactics", _describe_tactics event_name castle);
                   ("legacy", _assess_legacy event_name castle)]])
    (military_events castle) [].

Definition _estimate_lifespan (ruler : string) (castle : CastleData) : string :=
  "c. 1200 - c. 1260".

Definition _generate_epithet (ruler : string) (castle : CastleData) : string :=
  ("'The Great Builder' and 'Lord of " ++ name castle ++ "'")%string.

Definition _analyze_political_role (ruler : string) (castle : CastleData) : string :=
  ("Instrumental in establishing " ++ name castle
     ++ " as center of regional power")%string.

Definition _detail_military_activities (ruler : string) (castle : CastleData) : string :=
  ("Led military campaigns defending " ++ location castle ++ " region")%string.

Definition _assess_cultural_impact (ruler : string) (castle : CastleData) : string :=
  ("Patronized arts and architecture at " ++ name castle)%string.

Definition _connect_architectural_contributions (ruler : string) (castle : CastleData)
  : string :=
  ("Commissioned major architectural improvements to " ++ name castle)%string.

Definition _research_death_circumstances (ruler : string) (castle : CastleData)
  : string :=
  ("Died at " ++ name castle ++ " and was interred in the castle chapel")%string.

Definition _evaluate_contemporary_significance (ruler : string) (castle : CastleData)
  : string :=
  ("Remembered as foundational figure in " ++ name castle ++ "'s history")%string.

Definition generate_ruler_biography (ruler_name : string) (castle : CastleData)
  : Dict string :=
  [("fullName", ruler_name);
   ("lifespan", _estimate_lifespan ruler_name castle);
   ("epithet", _generate_epithet ruler_name castle);
   ("politicalAchievements", _analyze_political_role ruler_name castle);
   ("militaryCareer", _detail_military_activities ruler_name castle);
   ("culturalPatronage", _assess_cultural_impact ruler_name castle);
   ("architecturalLegacy", _connect_architectural_contributions ruler_name castle);
   ("death", _research_death_circumstances ruler_name castle);
   ("modernLegacy", _evaluate_contemporary_significance ruler_name castle)].

(** The [rulerBiographies] entry that [process_single_castle] fills: a
    dict keyed by ruler, for the first three rulers. *)
Definition ruler_biographies (castle : CastleData) : Dict (Dict string) :=
  fold_left
    (fun biographies ruler =>
       dict_set ruler (generate_ruler_biography ruler castle) biographies)
    (slice (notable_rulers castle) 0 3) [].

(** ** HistoricalDataProcessor: the fetch helpers *)

#[local] Set Warnings "-register-all".

(** A decoded JSON document, as [response.json()] returns it. *)
Inductive Json :=
| JNull
| JBool (b : bool)
| JInt (z : Z)
| JFloat (f : PrimFloat.float)
| JStr (s : string)
| JArr (items : list Json)
| JObj (members : list (string * Json)).

(** [type(v).__name__]. *)
Definition type_name (v : Json) : string :=
  match v with
  | JNull => "NoneType"
  | JBool _ => "bool"
  | JInt _ => "int"
  | JFloat _ => "float"
  | JStr _ => "str"
  | JArr _ => "list"
  | JObj _ => "dict"
  end.

Definition AttributeError (msg : string) : Exception := mkException "AttributeError" msg.

(** [v.get(key, default)]: only a dict has [get]. *)
Definition json_get (v : Json) (key : string) (default : Json) : Exception + Json :=
  match v with
  | JObj members =>
      inr (match dict_get key members with Some x => x | None => default end)
  | _ => inl (AttributeError ("'" ++ type_name v ++ "' object has no attribute 'get'")%string)
  end.

(** What [session.get] hands back: the status and the outcome of decoding
    the body. *)
Record Response := mkResponse {
  status : Z;
  json : Exception + Json
}.

(** A client session: for a URL and query parameters, the response or the
    exception the request raises. *)
Definition Session : Type := string -> Dict string -> Exception + Response.

Definition wikipedia_api : string := "https://en.wikipedia.org/api/rest_v1/page/summary/".
Definition wikidata_api : string := "https://query.wikidata.org/sparql".

Definition logger_warning := logger_emit WARNING.

Definition _fetch_wikipedia_data (session : Session) (castle_name : string) : M Json :=
  try_except
    (response <- lift (session (wikipedia_api ++ castle_name)%string []) ;;
     if status response =? 200
     then lift (json response)
     else
       logger_warning ("Wikipedia API error for " ++ castle_name ++ ": "
                         ++ str_int (status response))%string ;;
       ret (JObj []))
    (fun e =>
       logger_error ("Error fetching Wikipedia data for " ++ castle_name ++ ": "
                       ++ exc_text e)%string ;;
       ret (JObj [])).

(** The double quote character. *)
Definition dquote : string := String (Ascii.ascii_of_nat 34) EmptyString.

(** The SPARQL text, with the castle name put between the quotes. *)
Definition sparql_query (castle_name : string) : string :=
  ("
        SELECT ?item ?itemLabel ?country ?countryLabel ?inception ?coordinate ?image WHERE {
          ?item rdfs:label " ++ dquote ++ castle_name ++ dquote ++ "@en .
          ?item wdt:P31/wdt:P279* wd:Q23413 .
          OPTIONAL { ?item wdt:P17 ?country . }
          OPTIONAL { ?item wdt:P571 ?inception . }
          OPTIONAL { ?item wdt:P625 ?coordinate . }
          OPTIONAL { ?item wdt:P18 ?image . }
          SERVICE wikibase:label { bd:serviceParam wikibase:language " ++ dquote
     ++ "en" ++ dquote ++ " . }
        }
        ")%string.

Definition _fetch_wikidata_info (session : Session) (castle_name : string) : M Json :=
  try_except
    (let params := [("query", sparql_query castle_name); ("format", "json")] in
     response <- lift (session wikidata_api params) ;;
     if status response =? 200
     then
       data <- lift (json response) ;;
       results <- lift (json_get data "results" (JObj [])) ;;
       lift (json_get results "bindings" (JArr []))
     else
       logger_warning ("Wikidata API error for " ++ castle_name ++ ": "
                         ++ str_int (status response))%string ;;
       ret (JObj []))
    (fun e =>
       logger_error ("Error fetching Wikidata info for " ++ castle_name ++ ": "
                       ++ exc_text e)%string ;;
       ret (JObj [])).

(** [w] with [records] added to its log. *)
Definition with_log (w : World) (records : list LogRecord) : World :=
  mkWorld (database w) (clock w) (log w ++ records) (trace w) (next_task w).

(** ** str.format *)

Definition KeyError (key : string) : Exception :=
  mkException "KeyError" ("'" ++ key ++ "'")%string.

Fixpoint char_in (c : Ascii.ascii) (s : string) : bool :=
  match s with
  | EmptyString => false
  | String c' rest => if Ascii.eqb c c' then true else char_in c rest
  end.

Definition name_start (c : Ascii.ascii) : bool :=
  char_in c "abcdefghijklmnopqrstuvwxyzABCDEFGHIJKLMNOPQRSTUVWXYZ_".

Definition name_char (c : Ascii.ascii) : bool :=
  name_start c || char_in c "0123456789".

Definition prepend (c : Ascii.ascii) (r : option (Exception + string))
  : option (Exception + string) :=
  match r with
  | Some (inr s) => Some (inr (String c s))
  | other => other
  end.

Definition splice (value : string) (r : option (Exception + string))
  : option (Exception + string) :=
  match r with
  | Some (inr s) => Some (inr (value ++ s)%string)
  | other => other
  end.

(** [template.format] called with the keyword arguments [kwargs], all
    strs, read left to right;
    [field] is the replacement field being read, if any.  Doubled braces
    are literal braces; a field that is a plain ASCII name is looked up
    in [kwargs]; the text of a value is inserted as it is.  A field of
    any other form (positional, with an attribute, an index, a
    conversion or a format spec) is outside this model: [None]. *)
Fixpoint format_from (kwargs : Dict string) (template : string) (field : option string)
  : option (Exception + string) :=
  match template with
  | EmptyString =>
      match field with
      | None => Some (inr "")
      | Some "" => Some (inl (ValueError "Single '{' encountered in format string"))
      | Some _ => Some (inl (ValueError "expected '}' before end of string"))
      end
  | String c rest =>
      match field with
      | None =>
          if Ascii.eqb c "{"%char
          then match rest with
               | String c' rest' =>
                   if Ascii.eqb c' "{"%char
                   then prepend "{"%char (format_from kwargs rest' None)
                   else format_from kwargs rest (Some "")
               | EmptyString => format_from kwargs rest (Some "")
               end
          else if Ascii.eqb c "}"%char
          then match rest with
               | String c' rest' =>
                   if Ascii.eqb c' "}"%char
                   then prepend "}"%char (format_from kwargs rest' None)
                   else Some (inl (ValueError "Single '}' encountered in format string"))
               | EmptyString =>
                   Some (inl (ValueError "Single '}' encountered in format string"))
               end
          else prepend c (format_from kwargs rest None)
      | Some name =>
          if Ascii.eqb c "}"%char
          then match name with
               | EmptyString => None
               | String _ _ =>
                   match dict_get name kwargs with
                   | Some value => splice value (format_from kwargs rest None)
                   | None => Some (inl (KeyError name))
                   end
               end
          else if (match name with EmptyString => name_start c | _ => name_char c end)
          then format_from kwargs rest (Some (name ++ String c "")%string)
          else None
      end
  end.

Definition str_format (template : string) (kwargs : Dict string)
  : option (Exception + string) :=
  format_from kwargs template None.

(** [CulturalNarrativeTemplate.templates["cultural_significance"]]. *)
Definition cultural_significance_templates : list string :=
  ["represents the {style} architectural achievement and {cultural_context} heritage";
   "embodies the intersection of {theme1}, {theme2}, and {theme3} that characterized {period}";
   "stands as the {superlative} example of {architectural_type} and {cultural_meaning}"].

(** The [context_elements] dict of [generate_cultural_significance]. *)
Definition context_elements (castle : CastleData) : Dict string :=
  let style := architectural_style castle in
  [("style", style);
   ("cultural_context", _determine_cultural_context castle);
   ("theme1", "architectural achievement");
   ("theme2", "political power");
   ("theme3", "cultural synthesis");
   ("period", _get_primary_period castle);
   ("superlative", _generate_superlative castle);
   ("architectural_type", (style ++ " castle architecture")%string);
   ("cultural_meaning", _derive_cultural_meaning castle)].

Definition generate_cultural_significance (castle : CastleData)
  : option (Exception + string) :=
  match nth_error cultural_significance_templates 0 with
  | Some template => str_format template (context_elements castle)
  | None => Some (inl (IndexError "list index out of range"))
  end.

(** ** ScalableCastleProcessor *)

Section ScalableCastleProcessor.

(** [json.dumps] on a narrative. *)
Variable json_dumps : Narrative -> string.

(** Enrichment and generation inside [process_single_castle], up to the
    database write: the narrative built for a castle, or the exception
    those steps raise for it.  What the fetch helpers log on their own
    is not part of the dispatcher's log and is left out. *)
Variable generate : CastleData -> Exception + Narrative.

(** How long the awaited network calls of each task take; it fixes the
    order in which the tasks of one [asyncio.gather] complete. *)
Variable latency : nat -> nat.

(** The external pipeline read by [_load_external_castle_data]; the
    source's stand-in for it is [sample_castles]. *)
Variable pipeline : string -> list CastleData.

Definition setup_database : M unit :=
  sqlite_update (fun db =>
    inr (create_table_if_not_exists "castle_narratives" castle_narratives_ddl db)).

Definition _store_narrative (narrative : Narrative) : M unit :=
  now <- time_time ;;
  sqlite_update (fun db =>
    match lookup_table "castle_narratives" db with
    | None => inl (OperationalError "no such table: castle_narratives")
    | Some t =>
        inr (update_table "castle_narratives"
               (insert_or_replace t
                  (castle_name narrative)
                  (Some "Unknown")
                  (Some (json_dumps narrative))
                  (Some now)
                  (Some (dataQuality narrative)))
               db)
    end).

Definition process_single_castle (castle : CastleData) : M Narrative :=
  narrative <- lift (generate castle) ;;
  _store_narrative narrative ;;
  ret narrative.

(** Tasks are resumed in order of latency; ties keep submission order. *)
Fixpoint insert_task (x : nat * CastleData) (l : list (nat * CastleData))
  : list (nat * CastleData) :=
  match l with
  | [] => [x]
  | y :: rest =>
      if (latency (fst x) <=? latency (fst y))%nat
      then x :: l
      else y :: insert_task x rest
  end.

Definition completion_order (tasks : list (nat * CastleData))
  : list (nat * CastleData) :=
  fold_right insert_task [] tasks.

(** What a finished task holds; asking a task that never ran is an error. *)
Fixpoint task_result (tid : nat) (settled : list (nat * (Exception + Narrative)))
  : Exception + Narrative :=
  match settled with
  | [] => inl (InvalidStateError "Result is not set.")
  | (t, r) :: rest => if Nat.eqb t tid then r else task_result tid rest
  end.

Definition run_task (task : nat * CastleData)
    (settled : list (nat * (Exception + Narrative)))
  : M (list (nat * (Exception + Narrative))) :=
  r <- settle (process_single_castle (snd task)) ;;
  emit (Settled (fst task)) ;;
  ret (settled ++ [(fst task, r)]).

(** [await asyncio.gather] over the tasks with [return_exceptions=True]:
    every task starts, in creation order; the tasks then complete in
    [completion_order], each running the rest of its coroutine when its
    awaited calls return; once all have settled the results come back
    in the order of [tasks]. *)
Definition gather (tasks : list (nat * CastleData))
  : M (list (Exception + Narrative)) :=
  for_each tasks (fun task _ => emit (Started (fst task))) tt ;;
  settled <- for_each (completion_order tasks) run_task [] ;;
  ret (map (fun task => task_result (fst task) settled) tasks).

(** The loop over [enumerate(results)]. *)
Definition keep_result (castle_batch : list CastleData)
    (entry : nat * (Exception + Narrative)) (successful_results : list Narrative)
  : M (list Narrative) :=
  match snd entry with
  | inl exc =>
      match nth_error castle_batch (fst entry) with
      | Some castle =>
          logger_error ("Error processing " ++ name castle ++ ": " ++ exc_text exc)%string ;;
          ret successful_results
      | None => raise (IndexError "list index out of range")
      end
  | inr narrative => ret (successful_results ++ [narrative])
  end.

Definition process_castle_batch (castle_batch : list CastleData)
  : M (list Narrative) :=
  tasks <- for_each castle_batch
             (fun castle tasks => task <- create_task ;; ret (tasks ++ [(task, castle)]))
             [] ;;
  results <- gather tasks ;;
  for_each (enumerate results) (keep_result castle_batch) [].

Definition _load_external_castle_data (source_path : string) : M (list CastleData) :=
  let sample_castles := pipeline source_path in
  logger_info ("Loaded " ++ str_int (len sample_castles)
                 ++ " castles from external source")%string ;;
  ret sample_castles.

(** One iteration of the batch loop. *)
Definition process_one_batch (castle_data : list CastleData)
    (total_castles batch_size i processed_count : Z) : M Z :=
  let batch := slice castle_data i (i + batch_size) in
  logger_info ("Processing batch " ++ str_int (i / batch_size + 1)
                 ++ " (" ++ str_int (len batch) ++ " castles)")%string ;;
  try_except
    (results <- process_castle_batch batch ;;
     let processed_count := processed_count + len results in
     logger_info ("Completed batch. Total processed: " ++ str_int processed_count
                    ++ "/" ++ str_int total_castles)%string ;;
     asyncio_sleep 1 ;;
     ret processed_count)
    (fun e =>
       logger_error ("Error processing batch: " ++ exc_text e)%string ;;
       ret processed_count).

Definition process_thousands_of_castles
    (castle_data_source : string) (batch_size : Z) : M Z :=
  logger_info ("Starting processing of thousands of castles from "
                 ++ castle_data_source)%string ;;
  castle_data <- _load_external_castle_data castle_data_source ;;
  let total_castles := len castle_data in
  starts <- lift (range 0 total_castles batch_size) ;;
  processed_count <-
    for_each starts (process_one_batch castle_data total_castles batch_size) 0 ;;
  logger_info ("Completed processing " ++ str_int processed_count
                 ++ " castles out of " ++ str_int total_castles)%string ;;
  ret processed_count.

(** The batches the loop of [process_thousands_of_castles] hands to
    [process_castle_batch], in order. *)
Definition batches (castle_data : list CastleData) (batch_size : Z)
  : Exception + list (list CastleData) :=
  match range 0 (len castle_data) batch_size with
  | inl e => inl e
  | inr starts => inr (map (fun i => slice castle_data i (i + batch_size)) starts)
  end.

(** What [process_single_castle] yields for an item when started in [w]. *)
Definition outcome_at (w : World) (castle : CastleData) : Exception + Narrative :=
  result (process_single_castle castle) w.

(** The outcome of an item only depends on the item and on whether the
    table exists. *)
Definition outcome (ready : bool) (castle : CastleData) : Exception + Narrative :=
  match generate castle with
  | inl e => inl e
  | inr n =>
      if ready then inr n
      else inl (OperationalError "no such table: castle_narratives")
  end.

(** The instrumentation events of one batch whose first task is [next]. *)
Definition batch_events (next : nat) (castle_batch : list CastleData) : list Event :=
  map Started (seq next (List.length castle_batch))
  ++ map (fun t => Settled (fst t))
         (completion_order (combine (seq next (List.length castle_batch)) castle_batch))
  ++ [Slept 1].

(** The events of consecutive batches. *)
Fixpoint run_events (next : nat) (bs : list (list CastleData)) : list Event :=
  match bs with
  | [] => []
  | b :: rest => batch_events next b ++ run_events (next + List.length b) rest
  end.

(** Consecutive [_store_narrative] calls. *)
Definition store_all (narratives : list Narrative) : M unit :=
  for_each narratives (fun narrative _ => _store_narrative narrative) tt.

(** The constructor: [__init__] prepares the database. *)
Definition ScalableCastleProcessor_init : M unit := setup_database.

(** [main]: build the processor, run it with the default batch size. *)
Definition main : M unit :=
  ScalableCastleProcessor_init ;;
  _ <- process_thousands_of_castles "worker4_castle_pipeline.json" 50 ;;
  ret tt.

(** What a successful [_store_narrative] at time [now] does to the file
    (nothing when the table is missing). *)
Definition upsert (now : Q) (narrative : Narrative) (db : Database) : Database :=
  match lookup_table "castle_narratives" db with
  | None => db
  | Some t =>
      update_table "castle_narratives"
        (insert_or_replace t (castle_name narrative) (Some "Unknown")
           (Some (json_dumps narrative)) (Some now) (Some (dataQuality narrative)))
        db
  end.

(** Writes in the order they reach the database, each with its time. *)
Definition apply_writes (writes : list (Q * Narrative)) (db : Database) : Database :=
  fold_left (fun db wr => upsert (fst wr) (snd wr) db) writes db.

(** The writes of one batch started at time [now]: the successful items,
    in completion order. *)
Definition batch_writes (ready : bool) (now : Q) (next : nat)
    (castle_batch : list CastleData) : list (Q * Narrative) :=
  map (fun n => (now, n))
      (successes
         (map (fun t => outcome ready (snd t))
              (completion_order
                 (combine (seq next (List.length castle_batch)) castle_batch)))).

(** The writes of consecutive batches; the clock moves by the pacing
    delay after each. *)
Fixpoint run_writes (ready : bool) (now : Q) (next : nat)
    (bs : list (list CastleData)) : list (Q * Narrative) :=
  match bs with
  | [] => []
  | b :: rest =>
      batch_writes ready now next b
      ++ run_writes ready (Qred (now + 1)) (next + List.length b) rest
  end.

(** The log records of the batch loop, from the batch starting at each
    index of [starts], with [processed_count] successes so far. *)
Fixpoint loop_log (ready : bool) (castle_data : list CastleData)
    (total_castles batch_size : Z) (starts : list Z) (processed_count : Z)
  : list LogRecord :=
  match starts with
  | [] => []
  | i :: rest =>
      let batch := slice castle_data i (i + batch_size) in
      let results := map (outcome ready) batch in
      let processed_count := processed_count + len (successes results) in
      [mkLog INFO ("Processing batch " ++ str_int (i / batch_size + 1)
                     ++ " (" ++ str_int (len batch) ++ " castles)")%string]
      ++ failure_records batch results
      ++ [mkLog INFO ("Completed batch. Total processed: " ++ str_int processed_count
                        ++ "/" ++ str_int total_castles)%string]
      ++ loop_log ready castle_data total_castles batch_size rest processed_count
  end.

(** The clock after [n] pacing delays. *)
Fixpoint advance (n : nat) (now : Q) : Q :=
  match n with
  | O => now
  | S n => advance n (Qred (now + 1))
  end.

(** *** The sink *)

Lemma lookup_update_table tbl t' db :
  lookup_table tbl (update_table tbl t' db)
  = match lookup_table tbl db with Some _ => Some t' | None => None end.
Proof.
  induction db as [|[n t] rest IH]; simpl; [reflexivity|].
  destruct (String.eqb n tbl) eqn:E; simpl; rewrite E; auto.
Qed.

Lemma sink_ready_update t' db :
  sink_ready (update_table "castle_narratives" t' db) = sink_ready db.
Proof.
  unfold sink_ready. rewrite lookup_update_table.
  destruct (lookup_table _ db); reflexivity.
Qed.

Lemma lookup_create_table tbl ddl db :
  lookup_table tbl (create_table_if_not_exists tbl ddl db)
  = match lookup_table tbl db with
    | Some t => Some t
    | None => Some (mkTable ddl [] 0)
    end.
Proof.
  unfold create_table_if_not_exists.
  destruct (lookup_table tbl db) eqn:E; [exact E|].
  induction db as [|[n t] rest IH]; simpl in *.
  - rewrite String.eqb_refl. reflexivity.
  - destruct (String.eqb n tbl); [discriminate|auto].
Qed.

Lemma store_narrative_run narrative w :
  _store_narrative narrative w
  = match lookup_table "castle_narratives" (database w) with
    | Some t =>
        (inr tt,
         mkWorld (update_table "castle_narratives"
                    (insert_or_replace t (castle_name narrative) (Some "Unknown")
                       (Some (json_dumps narrative)) (Some (clock w))
                       (Some (dataQuality narrative)))
                    (database w))
                 (clock w) (log w) (trace w) (next_task w))
    | None => (inl (OperationalError "no such table: castle_narratives"), w)
    end.
Proof.
  unfold _store_narrative, bind, time_time, sqlite_update. simpl.
  destruct (lookup_table _ (database w)); reflexivity.
Qed.

Lemma process_single_castle_run castle w :
  exists db',
    sink_ready db' = sink_ready (database w)
    /\ process_single_castle castle w
       = (outcome (sink_ready (database w)) castle,
          mkWorld db' (clock w) (log w) (trace w) (next_task w)).
Proof.
  unfold process_single_castle, outcome, bind, lift, ret.
  destruct (generate castle) as [e|n].
  - exists (database w). split; [reflexivity|]. destruct w; reflexivity.
  - rewrite store_narrative_run. unfold sink_ready.
    destruct (lookup_table _ (database w)) as [t|] eqn:E.
    + eexists. split; [|reflexivity].
      fold (sink_ready (update_table "castle_narratives"
             (insert_or_replace t (castle_name n) (Some "Unknown")
                (Some (json_dumps n)) (Some (clock w)) (Some (dataQuality n)))
             (database w))).
      rewrite sink_ready_update. unfold sink_ready. rewrite E. reflexivity.
    + exists (database w). split; [rewrite E; reflexivity|].
      destruct w; reflexivity.
Qed.

Lemma outcome_at_eq w castle :
  outcome_at w castle = outcome (sink_ready (database w)) castle.
Proof.
  unfold outcome_at, result.
  destruct (process_single_castle_run castle w) as (db' & _ & ->). reflexivity.
Qed.

(** *** Running one batch *)

Lemma world_eta w :
  mkWorld (database w) (clock w) (log w) (trace w) (next_task w) = w.
Proof. destruct w; reflexivity. Qed.

Lemma create_tasks_run (batch : list CastleData) : forall acc w,
  for_each batch
    (fun castle tasks => task <- create_task ;; ret (tasks ++ [(task, castle)]))
    acc w
  = (inr (acc ++ combine (seq (next_task w) (List.length batch)) batch),
     mkWorld (database w) (clock w) (log w) (trace w)
             (next_task w + List.length batch)%nat).
Proof.
  induction batch as [|c rest IH]; intros acc w; simpl.
  - unfold ret. rewrite app_nil_r, Nat.add_0_r, world_eta. reflexivity.
  - unfold bind at 1. unfold bind at 1. unfold create_task, ret.
    rewrite IH. simpl. rewrite <- app_assoc. simpl.
    rewrite Nat.add_succ_r. reflexivity.
Qed.

Lemma start_tasks_run (tasks : list (nat * CastleData)) : forall u w,
  for_each tasks (fun task _ => emit (Started (fst task))) u w
  = (inr tt,
     mkWorld (database w) (clock w) (log w)
             (trace w ++ map (fun t => Started (fst t)) tasks) (next_task w)).
Proof.
  induction tasks as [|t rest IH]; intros [] w; simpl.
  - unfold ret. rewrite app_nil_r, world_eta. reflexivity.
  - unfold bind at 1. unfold emit at 1. rewrite IH. simpl.
    rewrite <- app_assoc. reflexivity.
Qed.

Lemma run_tasks_run l : forall acc w,
  exists db',
    sink_ready db' = sink_ready (database w)
    /\ for_each l run_task acc w
       = (inr (acc ++ map (fun t => (fst t, outcome (sink_ready (database w)) (snd t))) l),
          mkWorld db' (clock w) (log w)
                  (trace w ++ map (fun t => Settled (fst t)) l) (next_task w)).
Proof.
  induction l as [|t rest IH]; intros acc w; simpl.
  - exists (database w). split; [reflexivity|].
    unfold ret. rewrite !app_nil_r, world_eta. reflexivity.
  - destruct (process_single_castle_run (snd t) w) as (db1 & Hr1 & Hrun).
    unfold bind at 1. unfold run_task at 1. unfold bind at 1. unfold settle.
    rewrite Hrun. unfold bind at 1. unfold emit at 1. unfold ret at 1.
    cbv beta iota.
    match goal with |- context [for_each rest run_task ?a ?w1] =>
      destruct (IH a w1) as (db2 & Hr2 & ->) end.
    simpl in Hr2 |- *. exists db2. split; [congruence|].
    rewrite Hr1, <- !app_assoc. reflexivity.
Qed.

Lemma insert_task_perm x l : Permutation (insert_task x l) (x :: l).
Proof.
  induction l as [|y rest IH]; simpl; [reflexivity|].
  destruct (latency (fst x) <=? latency (fst y))%nat; [reflexivity|].
  rewrite IH. apply perm_swap.
Qed.

Lemma completion_order_perm tasks : Permutation (completion_order tasks) tasks.
Proof.
  induction tasks as [|t rest IH]; simpl; [reflexivity|].
  rewrite insert_task_perm. now constructor.
Qed.

Lemma task_result_found {A} (f : A -> Exception + Narrative)
    (l : list (nat * A)) (task : nat * A) :
  NoDup (map fst l) -> In task l ->
  task_result (fst task) (map (fun t => (fst t, f (snd t))) l) = f (snd task).
Proof.
  induction l as [|[t a] rest IH]; simpl; intros Hnd Hin; [contradiction|].
  inversion Hnd as [|? ? Hnotin Hnd']; subst.
  destruct Hin as [<-|Hin]; simpl.
  - rewrite Nat.eqb_refl. reflexivity.
  - destruct (Nat.eqb_spec t (fst task)) as [->|_]; [|auto].
    exfalso. apply Hnotin. apply in_map. exact Hin.
Qed.

Lemma map_fst_combine_seq {A} (l : list A) a :
  map fst (combine (seq a (List.length l)) l) = seq a (List.length l).
Proof.
  revert a. induction l; intros; simpl; [reflexivity|]. now rewrite IHl.
Qed.

Lemma map_snd_combine_seq {A} (l : list A) a :
  map snd (combine (seq a (List.length l)) l) = l.
Proof.
  revert a. induction l; intros; simpl; [reflexivity|]. now rewrite IHl.
Qed.

Lemma gather_run (tasks : list (nat * CastleData)) w :
  NoDup (map fst tasks) ->
  exists db',
    sink_ready db' = sink_ready (database w)
    /\ gather tasks w
       = (inr (map (outcome (sink_ready (database w))) (map snd tasks)),
          mkWorld db' (clock w) (log w)
                  (trace w ++ map (fun t => Started (fst t)) tasks
                           ++ map (fun t => Settled (fst t)) (completion_order tasks))
                  (next_task w)).
Proof.
  intros Hnd. unfold gather.
  unfold bind at 1. rewrite start_tasks_run.
  unfold bind at 1.
  match goal with |- context [for_each (completion_order tasks) run_task ?a ?w1] =>
    destruct (run_tasks_run (completion_order tasks) a w1) as (db' & Hr & ->) end.
  simpl in Hr |- *. exists db'. split; [exact Hr|].
  unfold ret. f_equal.
  - f_equal. rewrite map_map. apply map_ext_in. intros task Hin.
    apply task_result_found.
    + eapply Permutation_NoDup; [|exact Hnd].
      apply Permutation_map. symmetry. apply completion_order_perm.
    + eapply Permutation_in; [|exact Hin]. symmetry. apply completion_order_perm.
  - rewrite <- app_assoc. reflexivity.
Qed.

Lemma keep_results_run (f : CastleData -> Exception + Narrative) cs :
  forall pre acc w,
  for_each (combine (seq (List.length pre) (List.length cs)) (map f cs))
           (keep_result (pre ++ cs)) acc w
  = (inr (acc ++ successes (map f cs)),
     mkWorld (database w) (clock w)
             (log w ++ failure_records cs (map f cs))
             (trace w) (next_task w)).
Proof.
  induction cs as [|c rest IH]; intros pre acc w; simpl.
  - unfold ret. rewrite !app_nil_r, world_eta. reflexivity.
  - unfold bind at 1. unfold keep_result at 1. simpl fst. simpl snd.
    assert (Hnth : nth_error (pre ++ c :: rest) (List.length pre) = Some c).
    { rewrite nth_error_app2, Nat.sub_diag by lia. reflexivity. }
    assert (Hpre : pre ++ c :: rest = (pre ++ [c]) ++ rest)
      by (rewrite <- app_assoc; reflexivity).
    assert (Hlen : S (List.length pre) = List.length (pre ++ [c]))
      by (rewrite length_app; simpl; lia).
    unfold failure_records. simpl combine. simpl flat_map.
    destruct (f c) as [e|n].
    + cbn [fst snd]. rewrite Hnth. unfold bind at 1. unfold logger_error, logger_emit, ret.
      rewrite Hpre, Hlen, IH. simpl. unfold failure_records.
      rewrite <- app_assoc. reflexivity.
    + cbn [fst snd]. unfold ret at 1. rewrite Hpre, Hlen, IH. simpl.
      rewrite <- app_assoc. reflexivity.
Qed.

(** [process_castle_batch] in one equation: the narratives of the items
    that succeed, in submission order; one error record per failing item;
    all tasks started, then settled in completion order. *)
Lemma process_castle_batch_run castle_batch w :
  let tasks := combine (seq (next_task w) (List.length castle_batch)) castle_batch in
  let results := map (outcome_at w) castle_batch in
  exists db',
    sink_ready db' = sink_ready (database w)
    /\ process_castle_batch castle_batch w
       = (inr (successes results),
          mkWorld db' (clock w)
                  (log w ++ failure_records castle_batch results)
                  (trace w ++ map Started (seq (next_task w) (List.length castle_batch))
                           ++ map (fun t => Settled (fst t)) (completion_order tasks))
                  (next_task w + List.length castle_batch)%nat).
Proof.
  intros tasks results. unfold process_castle_batch.
  unfold bind at 1. rewrite create_tasks_run. simpl app. fold tasks.
  unfold bind at 1.
  match goal with |- context [gather tasks ?w1] =>
    destruct (gather_run tasks w1) as (db' & Hr & ->) end.
  { unfold tasks. rewrite map_fst_combine_seq. apply seq_NoDup. }
  simpl in Hr |- *. exists db'. split; [exact Hr|].
  unfold tasks at 1. rewrite map_snd_combine_seq.
  unfold enumerate. rewrite length_map.
  pose proof (keep_results_run (outcome (sink_ready (database w))) castle_batch [] []) as K.
  simpl in K. rewrite K. simpl.
  assert (Hres : map (outcome (sink_ready (database w))) castle_batch = results).
  { unfold results. apply map_ext. intros c. symmetry. apply outcome_at_eq. }
  rewrite Hres. f_equal. f_equal.
  unfold tasks. rewrite <- (map_map fst Started), map_fst_combine_seq. reflexivity.
Qed.

(** *** Running the batch loop *)

Lemma successes_app r1 r2 : successes (r1 ++ r2) = successes r1 ++ successes r2.
Proof. unfold successes. apply flat_map_app. Qed.

Lemma process_one_batch_run castle_data total batch_size i processed_count w :
  let batch := slice castle_data i (i + batch_size) in
  exists db' lg',
    sink_ready db' = sink_ready (database w)
    /\ process_one_batch castle_data total batch_size i processed_count w
       = (inr (processed_count
                 + len (successes (map (outcome (sink_ready (database w))) batch))),
          mkWorld db' (Qred (clock w + 1)) lg'
                  (trace w ++ batch_events (next_task w) batch)
                  (next_task w + List.length batch)%nat).
Proof.
  intros batch. unfold process_one_batch. fold batch.
  unfold bind at 1. unfold logger_info at 1. unfold logger_emit at 1.
  unfold try_except. unfold bind at 1.
  match goal with |- context [process_castle_batch batch ?w1] =>
    destruct (process_castle_batch_run batch w1) as (db' & Hr & ->);
    replace (map (outcome_at w1) batch)
      with (map (outcome (sink_ready (database w))) batch)
      by (apply map_ext; intros c; rewrite outcome_at_eq; reflexivity)
  end.
  simpl in Hr |- *.
  unfold bind, logger_info, logger_emit, asyncio_sleep, ret. simpl.
  eexists. eexists. split; [exact Hr|].
  unfold batch_events. rewrite <- !app_assoc. reflexivity.
Qed.

Lemma batch_loop_run castle_data total batch_size starts : forall processed_count w,
  let bs := map (fun i => slice castle_data i (i + batch_size)) starts in
  exists db' clk' lg',
    sink_ready db' = sink_ready (database w)
    /\ for_each starts (process_one_batch castle_data total batch_size)
                processed_count w
       = (inr (processed_count
                 + len (successes (map (outcome (sink_ready (database w))) (List.concat bs)))),
          mkWorld db' clk' lg'
                  (trace w ++ run_events (next_task w) bs)
                  (next_task w + List.length (List.concat bs))%nat).
Proof.
  induction starts as [|i rest IH]; intros pc w; simpl.
  - exists (database w), (clock w), (log w). split; [reflexivity|].
    unfold ret, len. simpl. rewrite Z.add_0_r, app_nil_r, Nat.add_0_r, world_eta.
    reflexivity.
  - destruct (process_one_batch_run castle_data total batch_size i pc w)
      as (db1 & lg1 & Hr1 & Hrun).
    unfold bind at 1. rewrite Hrun.
    match goal with |- context [for_each rest _ ?a ?w1] =>
      destruct (IH a w1) as (db2 & clk2 & lg2 & Hr2 & ->) end.
    simpl in Hr2 |- *. exists db2, clk2, lg2. split; [congruence|].
    rewrite Hr1, map_app, successes_app, length_app, <- app_assoc.
    unfold len. rewrite length_app, Nat2Z.inj_add, Z.add_assoc, Nat.add_assoc.
    reflexivity.
Qed.

(** *** Ranges and slices *)

Lemma range_len_pos n b :
  0 < b -> 0 <= n ->
  let c := range_len 0 n b in
  0 <= c /\ b * (c - 1) < n <= b * c /\ c = (n + b - 1) / b.
Proof.
  intros Hb Hn. unfold range_len.
  destruct (Z.ltb_spec 0 b) as [_|]; [|lia].
  destruct (Z.ltb_spec 0 n) as [Hpos|Hz]; cbv zeta.
  - replace (n - 0 - 1) with (n - 1) by lia.
    assert (Hq : (n + b - 1) / b = (n - 1) / b + 1).
    { replace (n + b - 1) with ((n - 1) + 1 * b) by lia.
      rewrite Z.div_add by lia. reflexivity. }
    pose proof (Z.div_pos (n - 1) b ltac:(lia) Hb).
    pose proof (Z.mul_div_le (n - 1) b Hb).
    pose proof (Z.mul_succ_div_gt (n - 1) b Hb).
    repeat split; try lia.
  - assert (n = 0) by lia; subst n.
    assert (Hq : (0 + b - 1) / b = 0) by (apply Z.div_small; lia).
    repeat split; try lia.
Qed.

Lemma range_eq start stop step :
  step <> 0 ->
  range start stop step
  = inr (map (fun k => start + Z.of_nat k * step)
             (seq 0 (Z.to_nat (range_len start stop step)))).
Proof.
  intros H. unfold range. destruct (Z.eqb_spec step 0); [contradiction|reflexivity].
Qed.

Lemma firstn_min_length {A} (l : list A) n :
  firstn (Nat.min n (List.length l)) l = firstn n l.
Proof.
  destruct (Nat.le_ge_cases n (List.length l)) as [H|H].
  - rewrite Nat.min_l by exact H. reflexivity.
  - rewrite Nat.min_r by exact H. rewrite !firstn_all2 by lia. reflexivity.
Qed.

Lemma slice_chunk {A} (l : list A) (b : Z) (k : nat) :
  0 < b ->
  slice l (Z.of_nat k * b) (Z.of_nat k * b + b) = chunk l (Z.to_nat b) k.
Proof.
  intros Hb. unfold slice, chunk, clip, len.
  set (n := Z.of_nat (List.length l)).
  set (i := Z.of_nat k * b).
  assert (Hi : 0 <= i) by (unfold i; nia).
  destruct (Z.ltb_spec i 0) as [|_]; [lia|].
  destruct (Z.ltb_spec (i + b) 0) as [|_]; [lia|].
  assert (Hk : (k * Z.to_nat b)%nat = Z.to_nat i).
  { unfold i. rewrite Z2Nat.inj_mul, Nat2Z.id by lia. reflexivity. }
  rewrite Hk.
  destruct (Z.le_gt_cases i n) as [Hle|Hgt].
  - rewrite (Z.min_l i n) by lia.
    rewrite <- (firstn_min_length (skipn (Z.to_nat i) l) (Z.to_nat b)).
    f_equal. rewrite length_skipn. unfold n in *. lia.
  - rewrite (Z.min_r i n), (Z.min_r (i + b) n) by lia.
    rewrite Z.sub_diag. simpl firstn at 1.
    rewrite (skipn_all2 l (n := Z.to_nat i)) by (unfold n in *; lia).
    rewrite firstn_nil. reflexivity.
Qed.

Lemma firstn_plus {A} (l : list A) n m :
  firstn (n + m) l = firstn n l ++ firstn m (skipn n l).
Proof.
  revert l. induction n as [|n IH]; intros l; simpl; [reflexivity|].
  destruct l as [|x l]; simpl.
  - rewrite firstn_nil. reflexivity.
  - rewrite IH. reflexivity.
Qed.

Lemma concat_chunks {A} (l : list A) b c :
  List.concat (map (chunk l b) (seq 0 c)) = firstn (c * b) l.
Proof.
  induction c as [|c IH]; [reflexivity|].
  rewrite seq_S, map_app, concat_app, IH. simpl.
  rewrite app_nil_r. unfold chunk.
  rewrite <- firstn_plus. f_equal. lia.
Qed.

Lemma chunk_length {A} (l : list A) b k :
  List.length (chunk l b k) = Nat.min b (List.length l - k * b).
Proof. unfold chunk. rewrite length_firstn, length_skipn. reflexivity. Qed.

(** For a positive [batch_size] the batches are the sequential chunks. *)
Lemma batches_chunks castle_data batch_size :
  0 < batch_size ->
  batches castle_data batch_size
  = inr (map (chunk castle_data (Z.to_nat batch_size))
             (seq 0 (Z.to_nat (range_len 0 (len castle_data) batch_size)))).
Proof.
  intros Hb. unfold batches. rewrite range_eq by lia.
  f_equal. rewrite map_map. apply map_ext. intros k.
  simpl. apply slice_chunk. exact Hb.
Qed.

Lemma chunks_cover (castle_data : list CastleData) batch_size :
  0 < batch_size ->
  List.concat (map (chunk castle_data (Z.to_nat batch_size))
                   (seq 0 (Z.to_nat (range_len 0 (len castle_data) batch_size))))
  = castle_data.
Proof.
  intros Hb. rewrite concat_chunks. apply firstn_all2.
  destruct (range_len_pos (len castle_data) batch_size Hb) as (Hc & Hbd & _).
  { unfold len. lia. }
  unfold len in *. nia.
Qed.

(** *** Running the driver *)

Lemma process_thousands_run_pos castle_data_source batch_size w :
  0 < batch_size ->
  let castle_data := pipeline castle_data_source in
  let bs := map (chunk castle_data (Z.to_nat batch_size))
                (seq 0 (Z.to_nat (range_len 0 (len castle_data) batch_size))) in
  exists db' clk' lg',
    sink_ready db' = sink_ready (database w)
    /\ process_thousands_of_castles castle_data_source batch_size w
       = (inr (len (successes (map (outcome_at w) castle_data))),
          mkWorld db' clk'
                  (lg' ++ [mkLog INFO
                             ("Completed processing "
                                ++ str_int (len (successes (map (outcome_at w) castle_data)))
                                ++ " castles out of "
                                ++ str_int (len castle_data))%string])
                  (trace w ++ run_events (next_task w) bs)
                  (next_task w + List.length castle_data)%nat).
Proof.
  intros Hb castle_data bs.
  replace (map (outcome_at w) castle_data)
    with (map (outcome (sink_ready (database w))) castle_data)
    by (apply map_ext; intros c; rewrite outcome_at_eq; reflexivity).
  unfold process_thousands_of_castles.
  unfold bind at 1. unfold logger_info at 1. unfold logger_emit at 1.
  unfold bind at 1. unfold _load_external_castle_data at 1.
  unfold bind at 1. unfold logger_info at 1. unfold logger_emit at 1.
  unfold ret at 1. cbv beta iota zeta. fold castle_data.
  unfold bind at 1. unfold lift. rewrite range_eq by lia.
  unfold bind at 1.
  match goal with |- context [for_each ?st (process_one_batch ?d ?t ?b) ?a ?w1] =>
    destruct (batch_loop_run d t b st a w1) as (db' & clk' & lg' & Hr & ->) end.
  simpl in Hr.
  assert (Hbs : map (fun i => slice castle_data i (i + batch_size))
                    (map (fun k => 0 + Z.of_nat k * batch_size)
                         (seq 0 (Z.to_nat (range_len 0 (len castle_data) batch_size))))
                = bs).
  { unfold bs. rewrite map_map. apply map_ext. intros k. simpl.
    apply slice_chunk. exact Hb. }
  assert (Hcat : List.concat bs = castle_data)
    by (apply chunks_cover; exact Hb).
  rewrite Hbs, Hcat.
  unfold logger_info, logger_emit, ret.
  cbn [database clock log trace next_task]. rewrite Z.add_0_l.
  exists db'. eexists. eexists. split; [exact Hr|]. reflexivity.
Qed.

Lemma process_thousands_run_zero castle_data_source w :
  result (process_thousands_of_castles castle_data_source 0) w
  = inl (ValueError "range() arg 3 must not be zero").
Proof. reflexivity. Qed.

Lemma process_thousands_run_neg castle_data_source batch_size w :
  batch_size < 0 ->
  exists lg',
    process_thousands_of_castles castle_data_source batch_size w
    = (inr 0, mkWorld (database w) (clock w) lg' (trace w) (next_task w)).
Proof.
  intros Hb. unfold process_thousands_of_castles.
  unfold bind at 1. unfold logger_info at 1. unfold logger_emit at 1.
  unfold bind at 1. unfold _load_external_castle_data at 1.
  unfold bind at 1. unfold logger_info at 1. unfold logger_emit at 1.
  unfold ret at 1. cbv beta iota zeta.
  unfold bind at 1. unfold lift. rewrite range_eq by lia.
  assert (Hl : range_len 0 (len (pipeline castle_data_source)) batch_size = 0).
  { unfold range_len, len.
    destruct (Z.ltb_spec 0 batch_size); [lia|].
    destruct (Z.ltb_spec (Z.of_nat (List.length (pipeline castle_data_source))) 0);
      [lia|reflexivity]. }
  rewrite Hl. cbn [Z.to_nat seq map for_each].
  unfold bind, logger_info, logger_emit, ret. cbn [database clock log trace next_task].
  eexists. reflexivity.
Qed.

(** *** Successes and failure records *)

Lemma successes_map {A} (f : A -> Exception + Narrative) l :
  successes (map f l) = flat_map (fun c => kept (f c)) l.
Proof.
  unfold successes. induction l as [|c rest IH]; simpl; [reflexivity|].
  rewrite IH. reflexivity.
Qed.

Lemma failure_records_map (f : CastleData -> Exception + Narrative) l :
  failure_records l (map f l) = flat_map (fun c => reported c (f c)) l.
Proof.
  unfold failure_records. induction l as [|c rest IH]; simpl; [reflexivity|].
  rewrite IH. reflexivity.
Qed.

Lemma kept_filter {A} (f : A -> Exception + Narrative) l :
  map inr (flat_map (fun c => kept (f c)) l)
  = map f (filter (fun c => negb (raised (f c))) l).
Proof.
  induction l as [|c rest IH]; simpl; [reflexivity|].
  rewrite map_app, IH. destruct (f c) eqn:E; simpl; [reflexivity|].
  rewrite E. reflexivity.
Qed.

Lemma filter_all_ok {A} (f : A -> Exception + Narrative) l :
  (forall c, In c l -> raised (f c) = false) ->
  filter (fun c => negb (raised (f c))) l = l.
Proof.
  induction l as [|c rest IH]; simpl; intros H; [reflexivity|].
  rewrite (H c) by auto. simpl. rewrite IH by auto. reflexivity.
Qed.

Lemma reported_all_ok (f : CastleData -> Exception + Narrative) l :
  (forall c, In c l -> raised (f c) = false) ->
  flat_map (fun c => reported c (f c)) l = [].
Proof.
  induction l as [|c rest IH]; simpl; intros H; [reflexivity|].
  rewrite IH by auto. specialize (H c (or_introl eq_refl)).
  destruct (f c); [discriminate|reflexivity].
Qed.

Lemma kept_reported_length (f : CastleData -> Exception + Narrative) l :
  (List.length (flat_map (fun c => kept (f c)) l)
   + List.length (flat_map (fun c => reported c (f c)) l))%nat
  = List.length l.
Proof.
  induction l as [|c rest IH]; simpl; [reflexivity|].
  rewrite !length_app. destruct (f c); simpl; lia.
Qed.

Lemma process_castle_batch_result castle_batch w :
  result (process_castle_batch castle_batch) w
  = inr (flat_map (fun c => kept (outcome_at w c)) castle_batch).
Proof.
  unfold result.
  destruct (process_castle_batch_run castle_batch w) as (db' & _ & ->).
  simpl. rewrite successes_map. reflexivity.
Qed.

Lemma process_castle_batch_log castle_batch w :
  log (after (process_castle_batch castle_batch) w)
  = log w ++ flat_map (fun c => reported c (outcome_at w c)) castle_batch.
Proof.
  unfold after.
  destruct (process_castle_batch_run castle_batch w) as (db' & _ & ->).
  simpl. rewrite failure_records_map. reflexivity.
Qed.

Lemma process_thousands_result castle_data_source batch_size w :
  0 < batch_size ->
  result (process_thousands_of_castles castle_data_source batch_size) w
  = inr (len (flat_map (fun c => kept (outcome_at w c)) (pipeline castle_data_source))).
Proof.
  intros Hb. unfold result.
  destruct (process_thousands_run_pos castle_data_source batch_size w Hb)
    as (db' & clk' & lg' & _ & ->).
  simpl. rewrite successes_map. reflexivity.
Qed.

(** *** The trace of a run *)

Lemma settled_in_batch next (b : list CastleData) j :
  (next <= j < next + List.length b)%nat -> In (Settled j) (batch_events next b).
Proof.
  intros Hj. unfold batch_events. apply in_or_app. right. apply in_or_app. left.
  rewrite <- (map_map fst Settled). apply in_map.
  eapply Permutation_in.
  - apply Permutation_map. symmetry. apply completion_order_perm.
  - rewrite map_fst_combine_seq. apply in_seq. exact Hj.
Qed.

Lemma started_in_batch next (b : list CastleData) i :
  In (Started i) (batch_events next b) <-> (next <= i < next + List.length b)%nat.
Proof.
  unfold batch_events. split.
  - intros H. apply in_app_or in H. destruct H as [H|H].
    + apply in_map_iff in H. destruct H as (t & Ht & Hin).
      inversion Ht; subst. apply in_seq in Hin. exact Hin.
    + apply in_app_or in H. destruct H as [H|[H|[]]]; [|discriminate].
      apply in_map_iff in H. destruct H as (t & Ht & _). discriminate.
  - intros H. apply in_or_app. left. apply in_map, in_seq. exact H.
Qed.

Lemma task_events_in_run bs : forall next t,
  (next <= t < next + List.length (List.concat bs))%nat ->
  In (Started t) (run_events next bs) /\ In (Settled t) (run_events next bs).
Proof.
  induction bs as [|b rest IH]; intros next t Ht; simpl in *; [lia|].
  rewrite length_app in Ht.
  destruct (Nat.lt_ge_cases t (next + List.length b)) as [Hlt|Hge].
  - split; apply in_or_app; left.
    + apply started_in_batch. lia.
    + apply settled_in_batch. lia.
  - destruct (IH (next + List.length b)%nat t ltac:(lia)) as [H1 H2].
    split; apply in_or_app; right; assumption.
Qed.

Lemma split_at_event (e : Event) l1 l2 pre post :
  l1 ++ l2 = pre ++ e :: post ->
  (exists post', l1 = pre ++ e :: post')
  \/ (exists pre', pre = l1 ++ pre' /\ l2 = pre' ++ e :: post).
Proof.
  intros H. apply app_eq_app in H. destruct H as (l & [[H1 H2]|[H1 H2]]).
  - destruct l as [|x l].
    + right. exists []. rewrite app_nil_r in H1. subst. split; [|symmetry; exact H2].
      rewrite app_nil_r. reflexivity.
    + inversion H2; subst. left. exists l. reflexivity.
  - right. exists l. split; assumption.
Qed.

Section Barrier.

Variable f : nat -> list CastleData.
Variable b cnt : nat.
Hypothesis b_pos : (0 < b)%nat.
Hypothesis at_most_b : forall k, (List.length (f k) <= b)%nat.
Hypothesis full_before_last : forall k, (S k < cnt)%nat -> List.length (f k) = b.

Lemma run_events_barrier m : forall k0,
  (k0 + m = cnt)%nat ->
  forall pre post i j,
    run_events (k0 * b) (map f (seq k0 m)) = pre ++ Started i :: post ->
    (k0 * b <= j)%nat -> (j / b < i / b)%nat ->
    In (Settled j) pre.
Proof.
  induction m as [|m IH]; intros k0 Hk pre post i j Heq Hj Hlt; simpl in Heq.
  - destruct pre; discriminate.
  - apply split_at_event in Heq. destruct Heq as [(post' & Hin)|(pre' & -> & Hrest)].
    + exfalso.
      assert (Hi : In (Started i) (batch_events (k0 * b) (f k0)))
        by (rewrite Hin; apply in_or_app; right; left; reflexivity).
      apply started_in_batch in Hi. pose proof (at_most_b k0).
      assert (i / b < S k0)%nat by (apply Nat.Div0.div_lt_upper_bound; nia).
      assert (k0 <= j / b)%nat by (apply Nat.div_le_lower_bound; nia).
      lia.
    + destruct m as [|m']; [destruct pre'; discriminate|].
      rewrite (full_before_last k0) in Hrest by lia.
      apply in_or_app.
      destruct (Nat.lt_ge_cases j (S k0 * b)) as [Hin|Hout].
      * left. apply settled_in_batch. rewrite (full_before_last k0) by lia. lia.
      * right. apply (IH (S k0) ltac:(lia) pre' post i j); [|exact Hout|exact Hlt].
        rewrite <- Hrest. f_equal. lia.
Qed.

End Barrier.

Lemma started_before_settled bs : forall next pre post j,
  run_events next bs = pre ++ Settled j :: post -> In (Started j) pre.
Proof.
  induction bs as [|b rest IH]; intros next pre post j Heq; simpl in Heq.
  - destruct pre; discriminate.
  - apply split_at_event in Heq. destruct Heq as [(post' & Hin)|(pre' & -> & Hrest)].
    + unfold batch_events in Hin.
      apply split_at_event in Hin. destruct Hin as [(p & Hin)|(pre' & -> & Hin)].
      * exfalso.
        assert (H : In (Settled j) (map Started (seq next (List.length b))))
          by (rewrite Hin; apply in_or_app; right; left; reflexivity).
        apply in_map_iff in H. destruct H as (t & Ht & _). discriminate.
      * apply in_or_app. left.
        assert (H : In (Settled j)
                       (map (fun t => Settled (fst t))
                            (completion_order
                               (combine (seq next (List.length b)) b)) ++ [Slept 1]))
          by (rewrite Hin; apply in_or_app; right; left; reflexivity).
        apply in_app_or in H. destruct H as [H|[H|[]]]; [|discriminate].
        rewrite <- (map_map fst Settled) in H.
        apply in_map_iff in H. destruct H as (t & Ht & Ht').
        inversion Ht; subst. apply in_map.
        eapply Permutation_in in Ht';
          [|apply Permutation_map, completion_order_perm].
        rewrite map_fst_combine_seq in Ht'. exact Ht'.
    + apply in_or_app. right. eapply IH. exact Hrest.
Qed.

Lemma sleeps_run_events bs : forall next,
  sleeps (run_events next bs) = repeat 1%Q (List.length bs).
Proof.
  assert (Hs : forall l : list nat, sleeps (map Started l) = []).
  { induction l; simpl; auto. }
  assert (Hd : forall l : list (nat * CastleData),
             sleeps (map (fun t => Settled (fst t)) l) = []).
  { induction l; simpl; auto. }
  induction bs as [|b rest IH]; intros next; simpl; [reflexivity|].
  unfold sleeps in *. rewrite flat_map_app. unfold batch_events.
  rewrite !flat_map_app, Hs, Hd, IH. reflexivity.
Qed.

(** *** Rows of the sink *)

Lemma NoDup_keys_filter (p : SqlRow.t -> bool) rs :
  NoDup (map SqlRow.castle_name rs) -> NoDup (map SqlRow.castle_name (filter p rs)).
Proof.
  induction rs as [|r rest IH]; simpl; intros H; [constructor|].
  inversion H as [|? ? Hnotin Hnd]; subst.
  destruct (p r); simpl; [|auto].
  constructor; [|auto].
  intros Hin. apply Hnotin. apply in_map_iff in Hin.
  destruct Hin as (r' & Hk & Hr'). apply filter_In in Hr'.
  rewrite <- Hk. apply in_map. tauto.
Qed.

Lemma insert_or_replace_unique t key c g ts q :
  NoDup (map SqlRow.castle_name (rows t)) ->
  NoDup (map SqlRow.castle_name (rows (insert_or_replace t key c g ts q))).
Proof.
  intros H. unfold insert_or_replace. simpl. rewrite map_app. simpl.
  eapply Permutation_NoDup; [apply Permutation_cons_append|].
  constructor; [|apply NoDup_keys_filter; exact H].
  intros Hin. apply in_map_iff in Hin. destruct Hin as (r & Hk & Hr).
  apply filter_In in Hr. destruct Hr as [_ Hr]. unfold conflicts in Hr.
  rewrite Hk, String.eqb_refl in Hr. discriminate.
Qed.

Lemma insert_or_replace_rows_for t key c g ts q :
  filter (conflicts key) (rows (insert_or_replace t key c g ts q))
  = [SqlRow.mk (Z.max (seq_no t) (max_rowid (rows t)) + 1) key c g ts None q].
Proof.
  unfold insert_or_replace. cbn [rows]. rewrite filter_app.
  assert (H : filter (conflicts key)
                (filter (fun r => negb (conflicts key r)) (rows t)) = []).
  { induction (rows t) as [|r rest IH]; simpl; [reflexivity|].
    destruct (conflicts key r) eqn:E; simpl; [exact IH|].
    rewrite E. exact IH. }
  rewrite H. cbn [filter app]. unfold conflicts. cbn [SqlRow.castle_name].
  rewrite String.eqb_refl. reflexivity.
Qed.

Lemma sink_rows_update t' db :
  sink_ready db = true ->
  sink_rows (update_table "castle_narratives" t' db) = rows t'.
Proof.
  unfold sink_ready, sink_rows. rewrite lookup_update_table.
  destruct (lookup_table _ db); [reflexivity|discriminate].
Qed.

Lemma store_narrative_keeps_unique narrative w :
  unique_keys (database w) ->
  unique_keys (database (after (_store_narrative narrative) w)).
Proof.
  unfold after. rewrite store_narrative_run. unfold unique_keys.
  destruct (lookup_table "castle_narratives" (database w)) as [t|] eqn:E;
    simpl; [|auto].
  intros H. rewrite sink_rows_update by (unfold sink_ready; rewrite E; reflexivity).
  apply insert_or_replace_unique. unfold sink_rows in H. rewrite E in H. exact H.
Qed.

Lemma store_all_keeps_unique narratives : forall u w,
  unique_keys (database w) ->
  unique_keys
    (database (snd (for_each narratives
                      (fun narrative _ => _store_narrative narrative) u w))).
Proof.
  induction narratives as [|n rest IH]; intros u w H; simpl; [exact H|].
  unfold bind. pose proof (store_narrative_keeps_unique n w H) as Hn.
  unfold after in Hn. destruct (_store_narrative n w) as [[e|[]] w1]; simpl in *.
  - exact Hn.
  - apply IH. exact Hn.
Qed.

Lemma create_table_count tbl ddl db :
  table_count tbl (create_table_if_not_exists tbl ddl db)
  = Nat.max 1 (table_count tbl db).
Proof.
  unfold create_table_if_not_exists, table_count.
  destruct (lookup_table tbl db) eqn:E.
  - induction db as [|[n t'] rest IH]; simpl in *; [discriminate|].
    destruct (String.eqb n tbl); simpl; [lia|auto].
  - rewrite filter_app, length_app. simpl. rewrite String.eqb_refl. simpl.
    assert (H : List.length (filter (fun entry => String.eqb (fst entry) tbl) db) = 0%nat).
    { induction db as [|[n t'] rest IH]; simpl in *; [reflexivity|].
      destruct (String.eqb n tbl); [discriminate|auto]. }
    rewrite H. reflexivity.
Qed.

Lemma create_table_again tbl ddl db :
  create_table_if_not_exists tbl ddl (create_table_if_not_exists tbl ddl db)
  = create_table_if_not_exists tbl ddl db.
Proof.
  unfold create_table_if_not_exists at 1. rewrite lookup_create_table.
  destruct (lookup_table tbl db); reflexivity.
Qed.

Lemma setup_database_run w :
  setup_database w
  = (inr tt,
     mkWorld (create_table_if_not_exists "castle_narratives"
                castle_narratives_ddl (database w))
             (clock w) (log w) (trace w) (next_task w)).
Proof. reflexivity. Qed.

(** ** Properties of the dispatcher and of the sink *)

(** C1 (failure isolation).  When exactly one item of a batch fails,
    [process_castle_batch] still returns: its list holds the results of
    all the other items, each equal to what that item yields on its own,
    so one result fewer than items; the log gains one error record naming
    the failing item and its error; and a run of the driver over these
    items with any positive batch size counts all items but one. *)
Theorem failure_isolation (pre post : list CastleData) (bad : CastleData)
    (e : Exception) (w : World) :
  outcome_at w bad = inl e ->
  (forall c, In c (pre ++ post) -> raised (outcome_at w c) = false) ->
  let castle_batch := pre ++ bad :: post in
  exists narratives,
    result (process_castle_batch castle_batch) w = inr narratives
    /\ map inr narratives = map (outcome_at w) (pre ++ post)
    /\ (List.length narratives + 1 = List.length castle_batch)%nat
    /\ log (after (process_castle_batch castle_batch) w)
       = log w ++ [failure_record bad e]
    /\ (forall source batch_size,
          0 < batch_size -> pipeline source = castle_batch ->
          result (process_thousands_of_castles source batch_size) w
          = inr (len castle_batch - 1)).
Proof.
  intros Hbad Hok castle_batch.
  assert (Hpre : forall c, In c pre -> raised (outcome_at w c) = false)
    by (intros c Hc; apply Hok, in_or_app; auto).
  assert (Hpost : forall c, In c post -> raised (outcome_at w c) = false)
    by (intros c Hc; apply Hok, in_or_app; auto).
  assert (Hkept : map inr (flat_map (fun c => kept (outcome_at w c)) castle_batch)
                  = map (outcome_at w) (pre ++ post)).
  { rewrite kept_filter. unfold castle_batch. rewrite filter_app. simpl.
    rewrite Hbad. simpl. rewrite !filter_all_ok by assumption.
    reflexivity. }
  assert (Hlen : (List.length (flat_map (fun c => kept (outcome_at w c)) castle_batch) + 1
                  = List.length castle_batch)%nat).
  { rewrite <- (length_map (@inr Exception Narrative)), Hkept, length_map.
    unfold castle_batch. rewrite !length_app. simpl. lia. }
  exists (flat_map (fun c => kept (outcome_at w c)) castle_batch).
  split; [apply process_castle_batch_result|].
  split; [exact Hkept|]. split; [exact Hlen|]. split.
  - rewrite process_castle_batch_log. f_equal. unfold castle_batch.
    rewrite flat_map_app. simpl. rewrite Hbad. simpl.
    rewrite !reported_all_ok by assumption. reflexivity.
  - intros source batch_size Hb Hsrc.
    rewrite process_thousands_result by exact Hb. rewrite Hsrc.
    f_equal. unfold len. lia.
Qed.


(** C3, as the code has it.  The driver never raises because items fail:
    for a positive batch size it returns the number of items that
    succeeded, which is 0 when every item fails.  It raises exactly when
    [batch_size] is 0, the [ValueError] of [range]; a negative
    [batch_size] is not reported: no batch runs and 0 is returned. *)
Theorem dispatcher_raises_only_for_zero_batch_size
    (source : string) (batch_size : Z) (w : World) :
  let outcome_of_run := result (process_thousands_of_castles source batch_size) w in
  (0 < batch_size ->
     outcome_of_run
     = inr (len (flat_map (fun c => kept (outcome_at w c)) (pipeline source))))
  /\ (0 < batch_size ->
      (forall c, In c (pipeline source) -> raised (outcome_at w c) = true) ->
      outcome_of_run = inr 0)
  /\ (batch_size = 0 ->
      outcome_of_run = inl (ValueError "range() arg 3 must not be zero"))
  /\ (batch_size < 0 -> outcome_of_run = inr 0)
  /\ (forall e, outcome_of_run = inl e -> batch_size = 0).
Proof.
  intros outcome_of_run.
  assert (Hneg : batch_size < 0 -> outcome_of_run = inr 0).
  { intros Hb. unfold outcome_of_run, result.
    destruct (process_thousands_run_neg source batch_size w Hb) as (lg' & ->).
    reflexivity. }
  assert (Hpos : 0 < batch_size ->
                 outcome_of_run
                 = inr (len (flat_map (fun c => kept (outcome_at w c)) (pipeline source))))
    by (intros Hb; apply process_thousands_result; exact Hb).
  split; [exact Hpos|]. split; [|split; [|split; [exact Hneg|]]].
  - intros Hb Hall. rewrite Hpos by exact Hb. f_equal.
    assert (H : flat_map (fun c => kept (outcome_at w c)) (pipeline source) = []).
    { revert Hall. generalize (pipeline source) as l.
      induction l as [|c rest IH]; intros Hall; simpl; [reflexivity|].
      rewrite IH by (intros c' Hc'; apply Hall; right; exact Hc').
      specialize (Hall c (or_introl eq_refl)).
      destruct (outcome_at w c); [reflexivity|discriminate]. }
    rewrite H. reflexivity.
  - intros ->. apply process_thousands_run_zero.
  - intros e He. destruct (Z.lt_trichotomy batch_size 0) as [Hb|[Hb|Hb]].
    + rewrite Hneg in He by exact Hb. discriminate.
    + exact Hb.
    + rewrite Hpos in He by lia. discriminate.
Qed.

(** C4 (keyed upsert).  A [_store_narrative] call, and so any sequence
    of them, keeps at most one row per [castle_name]; and when a key is
    written and later written again, the second write succeeds and
    leaves exactly one row for the key, holding the narrative, the time
    and the quality score of the second write. *)
Theorem keyed_upsert :
  (forall w narrative,
     unique_keys (database w) ->
     unique_keys (database (after (_store_narrative narrative) w)))
  /\ (forall w narratives,
        unique_keys (database w) ->
        unique_keys (database (after (store_all narratives) w)))
  /\ (forall w1 w2 first second,
        sink_ready (database w1) = true ->
        database w2 = database (after (_store_narrative first) w1) ->
        castle_name first = castle_name second ->
        exists rowid,
          result (_store_narrative second) w2 = inr tt
          /\ rows_for (castle_name second)
                      (database (after (_store_narrative second) w2))
             = [SqlRow.mk rowid (castle_name second) (Some "Unknown")
                       (Some (json_dumps second)) (Some (clock w2)) None
                       (Some (dataQuality second))]).
Proof.
  split; [intros w n; apply store_narrative_keeps_unique|].
  split; [intros w ns; apply store_all_keeps_unique|].
  intros w1 w2 first second Hready Hdb _.
  assert (Hready2 : sink_ready (database w2) = true).
  { rewrite Hdb. unfold after. rewrite store_narrative_run.
    unfold sink_ready in Hready |- *.
    destruct (lookup_table "castle_narratives" (database w1)) eqn:E;
      [|discriminate].
    simpl. rewrite lookup_update_table, E. reflexivity. }
  unfold result, after, rows_for. rewrite store_narrative_run.
  pose proof Hready2 as Hl. unfold sink_ready in Hl.
  destruct (lookup_table "castle_narratives" (database w2)) as [t|] eqn:E;
    [|discriminate].
  eexists. split; [reflexivity|]. simpl.
  rewrite sink_rows_update by exact Hready2.
  apply insert_or_replace_rows_for.
Qed.

(** C6 (barrier between batches).  In a run with a positive batch size,
    started with the instrumentation reset, every task starts and
    settles; whenever a task starts, every task of an earlier batch has
    already settled; and a task settles only after it started.  Task [t]
    belongs to batch [t / batch_size]. *)
Theorem batch_barrier (source : string) (batch_size : Z)
    (db : Database) (clk : Q) (lg : list LogRecord) :
  0 < batch_size ->
  let w := mkWorld db clk lg [] 0 in
  let events := trace (after (process_thousands_of_castles source batch_size) w) in
  let b := Z.to_nat batch_size in
  (exists bs,
     batches (pipeline source) batch_size = inr bs /\ events = run_events 0 bs)
  /\ (forall t, (t < List.length (pipeline source))%nat ->
        In (Started t) events /\ In (Settled t) events)
  /\ (forall pre post i j,
        events = pre ++ Started i :: post ->
        (j / b < i / b)%nat ->
        In (Settled j) pre)
  /\ (forall pre post j,
        events = pre ++ Settled j :: post -> In (Started j) pre).
Proof.
  intros Hb w events b.
  set (castle_data := pipeline source).
  set (cnt := Z.to_nat (range_len 0 (len castle_data) batch_size)).
  assert (Hev : events = run_events 0 (map (chunk castle_data b) (seq 0 cnt))).
  { unfold events, after.
    destruct (process_thousands_run_pos source batch_size w Hb)
      as (db' & clk' & lg' & _ & ->).
    reflexivity. }
  assert (Hcat : List.concat (map (chunk castle_data b) (seq 0 cnt)) = castle_data)
    by (apply chunks_cover; exact Hb).
  assert (Hbpos : (0 < b)%nat) by (unfold b; lia).
  split; [|split; [|split]].
  - eexists. split; [apply batches_chunks; exact Hb|exact Hev].
  - intros t Ht. rewrite Hev. apply task_events_in_run. rewrite Hcat.
    fold castle_data in Ht. lia.
  - intros pre post i j Heq Hlt. rewrite Hev in Heq.
    apply (run_events_barrier (chunk castle_data b) b cnt Hbpos) with
      (m := cnt) (k0 := 0%nat) (post := post) (i := i);
      [| |reflexivity|exact Heq|lia|exact Hlt].
    + intros k. rewrite chunk_length. lia.
    + intros k Hk. rewrite chunk_length.
      destruct (range_len_pos (len castle_data) batch_size Hb) as (Hc & Hbd & _).
      { unfold len. lia. }
      unfold len in *.
      set (c := range_len 0 (Z.of_nat (List.length castle_data)) batch_size) in *.
      assert (Hk' : Z.of_nat (S k) <= c - 1) by (unfold cnt in Hk; lia).
      assert (Hz : Z.of_nat (S k) * batch_size < Z.of_nat (List.length castle_data))
        by nia.
      assert (Hn : (k * b + b <= List.length castle_data)%nat).
      { apply Nat2Z.inj_le. unfold b.
        rewrite Nat2Z.inj_add, Nat2Z.inj_mul, Z2Nat.id by lia. lia. }
      lia.
  - intros pre post j Heq. rewrite Hev in Heq.
    eapply started_before_settled. exact Heq.
Qed.

Lemma filter_split_length {A} (p : A -> bool) l :
  (List.length (filter p l) + List.length (filter (fun x => negb (p x)) l))%nat
  = List.length l.
Proof.
  induction l as [|x rest IH]; simpl; [reflexivity|].
  destruct (p x); simpl; lia.
Qed.

Lemma sleeps_app tr1 tr2 : sleeps (tr1 ++ tr2) = sleeps tr1 ++ sleeps tr2.
Proof. unfold sleeps. apply flat_map_app. Qed.


(** C8, as the code has it.  After each batch the driver sleeps for
    exactly 1 second: the sleeps of a run with a positive batch size are
    one sleep of 1 per batch, whatever the source and the batch size. *)
Theorem pacing_delay_is_one_second (source : string) (batch_size : Z) (w : World) :
  0 < batch_size ->
  exists bs,
    batches (pipeline source) batch_size = inr bs
    /\ sleeps (trace (after (process_thousands_of_castles source batch_size) w))
       = sleeps (trace w) ++ repeat 1%Q (List.length bs).
Proof.
  intros Hb. eexists. split; [apply batches_chunks; exact Hb|].
  unfold after.
  destruct (process_thousands_run_pos source batch_size w Hb)
    as (db' & clk' & lg' & _ & ->).
  simpl. rewrite sleeps_app, sleeps_run_events. reflexivity.
Qed.

(** C9 (idempotent initialisation).  [setup_database] never fails, on
    any database file; calling it again changes nothing, so any number
    of calls leaves what one call leaves; an existing table is kept as
    it is, a missing one is created empty, and no second table of that
    name appears. *)
Theorem setup_database_idempotent (w : World) (n : nat) :
  result setup_database w = inr tt
  /\ Nat.iter (S n) (after setup_database) w = after setup_database w
  /\ database (after setup_database w)
     = (if sink_ready (database w) then database w
        else database w ++ [("castle_narratives", mkTable castle_narratives_ddl [] 0)])
  /\ table_count "castle_narratives" (database (after setup_database w))
     = Nat.max 1 (table_count "castle_narratives" (database w))
  /\ sink_ready (database (after setup_database w)) = true.
Proof.
  assert (Htwice : forall w', after setup_database (after setup_database w')
                              = after setup_database w').
  { intros w'. unfold after. rewrite !setup_database_run. simpl.
    rewrite create_table_again. reflexivity. }
  split; [reflexivity|]. split; [|split; [|split]].
  - induction n as [|n IH]; [reflexivity|].
    change (Nat.iter (S (S n)) (after setup_database) w)
      with (after setup_database (Nat.iter (S n) (after setup_database) w)).
    rewrite IH. apply Htwice.
  - unfold after. rewrite setup_database_run. simpl.
    unfold create_table_if_not_exists, sink_ready.
    destruct (lookup_table "castle_narratives" (database w)); reflexivity.
  - unfold after. rewrite setup_database_run. simpl. apply create_table_count.
  - unfold after. rewrite setup_database_run. simpl.
    unfold sink_ready. rewrite lookup_create_table.
    destruct (lookup_table "castle_narratives" (database w)); reflexivity.
Qed.

(** C10 (outcome conservation).  Each item of a batch contributes either
    one narrative to the returned list or one failure record to the log,
    never both and never neither: the two lists are the per-item
    contributions in submission order, and their lengths add up to the
    size of the batch. *)
Theorem outcome_conservation (castle_batch : list CastleData) (w : World) :
  let narratives := flat_map (fun c => kept (outcome_at w c)) castle_batch in
  let failures := flat_map (fun c => reported c (outcome_at w c)) castle_batch in
  result (process_castle_batch castle_batch) w = inr narratives
  /\ log (after (process_castle_batch castle_batch) w) = log w ++ failures
  /\ Forall (fun c => (List.length (kept (outcome_at w c))
                       + List.length (reported c (outcome_at w c)) = 1)%nat)
            castle_batch
  /\ (List.length narratives + List.length failures = List.length castle_batch)%nat.
Proof.
  intros narratives failures.
  split; [apply process_castle_batch_result|].
  split; [apply process_castle_batch_log|]. split.
  - apply Forall_forall. intros c _. destruct (outcome_at w c); reflexivity.
  - apply kept_reported_length.
Qed.

(** *** The database and the log through a run *)

Lemma sink_ready_upsert now narrative db :
  sink_ready (upsert now narrative db) = sink_ready db.
Proof.
  unfold upsert. destruct (lookup_table "castle_narratives" db) eqn:E;
    [|reflexivity].
  apply sink_ready_update.
Qed.

Lemma sink_ready_apply_writes writes : forall db,
  sink_ready (apply_writes writes db) = sink_ready db.
Proof.
  induction writes as [|wr rest IH]; intros db; simpl; [reflexivity|].
  rewrite IH. apply sink_ready_upsert.
Qed.

Lemma apply_writes_app ws1 ws2 db :
  apply_writes (ws1 ++ ws2) db = apply_writes ws2 (apply_writes ws1 db).
Proof. unfold apply_writes. apply fold_left_app. Qed.

Lemma store_narrative_database narrative w :
  database (after (_store_narrative narrative) w)
  = upsert (clock w) narrative (database w).
Proof.
  unfold after, upsert. rewrite store_narrative_run.
  destruct (lookup_table "castle_narratives" (database w)); reflexivity.
Qed.

Lemma process_single_castle_full castle w :
  process_single_castle castle w
  = (outcome (sink_ready (database w)) castle,
     mkWorld (apply_writes
                (map (fun n => (clock w, n))
                     (kept (outcome (sink_ready (database w)) castle)))
                (database w))
             (clock w) (log w) (trace w) (next_task w)).
Proof.
  unfold process_single_castle, outcome, bind, lift, ret.
  destruct (generate castle) as [e|n].
  - cbn. rewrite world_eta. reflexivity.
  - rewrite store_narrative_run. unfold sink_ready.
    destruct (lookup_table "castle_narratives" (database w)) as [t|] eqn:E.
    + cbn [kept map apply_writes fold_left fst snd]. unfold upsert. rewrite E.
      reflexivity.
    + cbn. rewrite world_eta. reflexivity.
Qed.

Lemma successes_cons r rs : successes (r :: rs) = kept r ++ successes rs.
Proof. reflexivity. Qed.

Lemma run_tasks_full l : forall acc w,
  for_each l run_task acc w
  = (inr (acc ++ map (fun t => (fst t, outcome (sink_ready (database w)) (snd t))) l),
     mkWorld (apply_writes
                (map (fun n => (clock w, n))
                     (successes (map (fun t => outcome (sink_ready (database w)) (snd t)) l)))
                (database w))
             (clock w) (log w)
             (trace w ++ map (fun t => Settled (fst t)) l) (next_task w)).
Proof.
  induction l as [|t rest IH]; intros acc w; cbn [for_each map].
  - unfold ret. cbn. rewrite !app_nil_r, world_eta. reflexivity.
  - unfold bind at 1. unfold run_task at 1. unfold bind at 1. unfold settle.
    rewrite process_single_castle_full. unfold bind at 1. unfold emit at 1.
    unfold ret at 1. cbv beta iota. rewrite IH.
    cbn [database clock log trace next_task].
    rewrite sink_ready_apply_writes, <- !app_assoc.
    rewrite successes_cons, map_app, apply_writes_app. reflexivity.
Qed.

Lemma gather_full (tasks : list (nat * CastleData)) w :
  NoDup (map fst tasks) ->
  gather tasks w
  = (inr (map (outcome (sink_ready (database w))) (map snd tasks)),
     mkWorld (apply_writes
                (map (fun n => (clock w, n))
                     (successes
                        (map (fun t => outcome (sink_ready (database w)) (snd t))
                             (completion_order tasks))))
                (database w))
             (clock w) (log w)
             (trace w ++ map (fun t => Started (fst t)) tasks
                      ++ map (fun t => Settled (fst t)) (completion_order tasks))
             (next_task w)).
Proof.
  intros Hnd. unfold gather.
  unfold bind at 1. rewrite start_tasks_run.
  unfold bind at 1. rewrite run_tasks_full.
  cbn [database clock log trace next_task app].
  unfold ret. f_equal.
  - f_equal. rewrite map_map. apply map_ext_in. intros task Hin.
    apply task_result_found.
    + eapply Permutation_NoDup; [|exact Hnd].
      apply Permutation_map. symmetry. apply completion_order_perm.
    + eapply Permutation_in; [|exact Hin]. symmetry. apply completion_order_perm.
  - rewrite <- app_assoc. reflexivity.
Qed.

Lemma process_castle_batch_full castle_batch w :
  let ready := sink_ready (database w) in
  let results := map (outcome ready) castle_batch in
  process_castle_batch castle_batch w
  = (inr (successes results),
     mkWorld (apply_writes
                (batch_writes ready (clock w) (next_task w) castle_batch)
                (database w))
             (clock w)
             (log w ++ failure_records castle_batch results)
             (trace w ++ map Started (seq (next_task w) (List.length castle_batch))
                      ++ map (fun t => Settled (fst t))
                             (completion_order
                                (combine (seq (next_task w) (List.length castle_batch))
                                         castle_batch)))
             (next_task w + List.length castle_batch)%nat).
Proof.
  intros ready results. unfold process_castle_batch.
  unfold bind at 1. rewrite create_tasks_run. cbn [app].
  set (tasks := combine (seq (next_task w) (List.length castle_batch)) castle_batch).
  unfold bind at 1. rewrite gather_full
    by (cbn [next_task]; unfold tasks; rewrite map_fst_combine_seq; apply seq_NoDup).
  cbn [database clock log trace next_task].
  unfold tasks at 1. rewrite map_snd_combine_seq.
  unfold enumerate. rewrite length_map.
  pose proof (keep_results_run (outcome ready) castle_batch [] []) as K.
  cbn [app List.length] in K. fold ready. rewrite K.
  cbn [database clock log trace next_task app].
  unfold batch_writes. fold tasks. fold results. f_equal. f_equal.
  unfold tasks. rewrite <- (map_map fst Started), map_fst_combine_seq. reflexivity.
Qed.

Lemma process_one_batch_full castle_data total batch_size i processed_count w :
  let ready := sink_ready (database w) in
  let batch := slice castle_data i (i + batch_size) in
  process_one_batch castle_data total batch_size i processed_count w
  = (inr (processed_count + len (successes (map (outcome ready) batch))),
     mkWorld (apply_writes (batch_writes ready (clock w) (next_task w) batch)
                           (database w))
             (Qred (clock w + 1))
             (log w ++ loop_log ready castle_data total batch_size [i] processed_count)
             (trace w ++ batch_events (next_task w) batch)
             (next_task w + List.length batch)%nat).
Proof.
  intros ready batch. unfold process_one_batch. fold batch.
  unfold bind at 1. unfold logger_info at 1. unfold logger_emit at 1.
  unfold try_except. unfold bind at 1.
  rewrite process_castle_batch_full.
  cbn [database clock log trace next_task]. fold ready.
  unfold bind, logger_info, logger_emit, asyncio_sleep, ret.
  cbn [database clock log trace next_task loop_log]. fold batch.
  unfold batch_events. rewrite <- !app_assoc. rewrite app_nil_r. reflexivity.
Qed.

Lemma batch_loop_full castle_data total batch_size starts : forall processed_count w,
  let ready := sink_ready (database w) in
  let bs := map (fun i => slice castle_data i (i + batch_size)) starts in
  for_each starts (process_one_batch castle_data total batch_size) processed_count w
  = (inr (processed_count + len (successes (map (outcome ready) (List.concat bs)))),
     mkWorld (apply_writes (run_writes ready (clock w) (next_task w) bs) (database w))
             (advance (List.length bs) (clock w))
             (log w ++ loop_log ready castle_data total batch_size starts processed_count)
             (trace w ++ run_events (next_task w) bs)
             (next_task w + List.length (List.concat bs))%nat).
Proof.
  induction starts as [|i rest IH]; intros pc w; cbn [for_each map].
  - unfold ret, len. cbn. rewrite Z.add_0_r, !app_nil_r, Nat.add_0_r, world_eta.
    reflexivity.
  - unfold bind at 1. rewrite process_one_batch_full. rewrite IH.
    cbn [database clock log trace next_task].
    rewrite sink_ready_apply_writes.
    cbn [List.concat run_writes run_events loop_log List.length advance].
    rewrite map_app, successes_app, length_app, apply_writes_app, <- !app_assoc.
    unfold len. rewrite length_app, Nat2Z.inj_add, Z.add_assoc, Nat.add_assoc.
    cbn [app]. reflexivity.
Qed.

Lemma process_thousands_full castle_data_source batch_size w :
  0 < batch_size ->
  let ready := sink_ready (database w) in
  let castle_data := pipeline castle_data_source in
  let starts := map (fun k => 0 + Z.of_nat k * batch_size)
                    (seq 0 (Z.to_nat (range_len 0 (len castle_data) batch_size))) in
  let bs := map (chunk castle_data (Z.to_nat batch_size))
                (seq 0 (Z.to_nat (range_len 0 (len castle_data) batch_size))) in
  let succeeded := len (successes (map (outcome ready) castle_data)) in
  process_thousands_of_castles castle_data_source batch_size w
  = (inr succeeded,
     mkWorld (apply_writes (run_writes ready (clock w) (next_task w) bs) (database w))
             (advance (List.length bs) (clock w))
             (log w
                ++ [mkLog INFO ("Starting processing of thousands of castles from "
                                  ++ castle_data_source)%string;
                    mkLog INFO ("Loaded " ++ str_int (len castle_data)
                                  ++ " castles from external source")%string]
                ++ loop_log ready castle_data (len castle_data) batch_size starts 0
                ++ [mkLog INFO ("Completed processing " ++ str_int succeeded
                                  ++ " castles out of "
                                  ++ str_int (len castle_data))%string])
             (trace w ++ run_events (next_task w) bs)
             (next_task w + List.length castle_data)%nat).
Proof.
  intros Hb ready castle_data starts bs succeeded.
  unfold process_thousands_of_castles.
  unfold bind at 1. unfold logger_info at 1. unfold logger_emit at 1.
  unfold bind at 1. unfold _load_external_castle_data at 1.
  unfold bind at 1. unfold logger_info at 1. unfold logger_emit at 1.
  unfold ret at 1. cbv beta iota zeta. fold castle_data.
  unfold bind at 1. unfold lift. rewrite range_eq by lia. fold starts.
  unfold bind at 1. rewrite batch_loop_full.
  cbn [database clock log trace next_task]. fold ready.
  assert (Hbs : map (fun i => slice castle_data i (i + batch_size)) starts = bs).
  { unfold bs, starts. rewrite map_map. apply map_ext. intros k. simpl.
    apply slice_chunk. exact Hb. }
  assert (Hcat : List.concat bs = castle_data)
    by (apply chunks_cover; exact Hb).
  rewrite Hbs, Hcat, Z.add_0_l. fold succeeded.
  unfold bind, logger_info, logger_emit, ret.
  cbn [database clock log trace next_task].
  rewrite <- !app_assoc. reflexivity.
Qed.

(** *** What a write touches *)


Lemma filter_other_key key k rs :
  k <> key ->
  filter (conflicts k) (filter (fun r => negb (conflicts key r)) rs)
  = filter (conflicts k) rs.
Proof.
  intros Hne. induction rs as [|r rest IH]; simpl; [reflexivity|].
  destruct (conflicts key r) eqn:Ekey; simpl.
  - destruct (conflicts k r) eqn:Ek; [|exact IH].
    exfalso. apply Hne. unfold conflicts in Ekey, Ek.
    apply String.eqb_eq in Ekey, Ek. congruence.
  - rewrite IH. reflexivity.
Qed.

Lemma max_rowid_bound rs : Forall (fun r => SqlRow.id r <= max_rowid rs) rs.
Proof.
  induction rs as [|r rest IH]; simpl; constructor.
  - lia.
  - eapply Forall_impl; [|exact IH]. simpl. intros r' Hr'. lia.
Qed.

Lemma sink_rows_upsert now narrative db :
  sink_ready db = true ->
  exists t,
    lookup_table "castle_narratives" db = Some t
    /\ sink_rows db = rows t
    /\ sink_rows (upsert now narrative db)
       = filter (fun r => negb (conflicts (castle_name narrative) r)) (rows t)
         ++ [SqlRow.mk (Z.max (seq_no t) (max_rowid (rows t)) + 1)
                    (castle_name narrative) (Some "Unknown")
                    (Some (json_dumps narrative)) (Some now) None
                    (Some (dataQuality narrative))].
Proof.
  intros Hready. unfold sink_ready in Hready. unfold upsert, sink_rows.
  destruct (lookup_table "castle_narratives" db) as [t|] eqn:E; [|discriminate].
  exists t. split; [reflexivity|]. split; [reflexivity|].
  rewrite lookup_update_table, E. reflexivity.
Qed.

Lemma upsert_not_ready now narrative db :
  sink_ready db = false -> upsert now narrative db = db.
Proof.
  unfold sink_ready, upsert.
  destruct (lookup_table "castle_narratives" db); [discriminate|reflexivity].
Qed.

Lemma rows_for_upsert_other now narrative k db :
  k <> castle_name narrative ->
  rows_for k (upsert now narrative db) = rows_for k db.
Proof.
  intros Hne. destruct (sink_ready db) eqn:Hready.
  - destruct (sink_rows_upsert now narrative db Hready) as (t & _ & Hrows & Hnew).
    unfold rows_for. rewrite Hnew, Hrows, filter_app, filter_other_key by exact Hne.
    simpl. unfold conflicts at 2. simpl.
    destruct (String.eqb_spec (castle_name narrative) k) as [Hk|_];
      [exfalso; apply Hne; congruence|].
    apply app_nil_r.
  - rewrite upsert_not_ready by exact Hready. reflexivity.
Qed.

Lemma rows_for_upsert_same now narrative db :
  sink_ready db = true ->
  exists rowid,
    rows_for (castle_name narrative) (upsert now narrative db)
    = [SqlRow.mk rowid (castle_name narrative) (Some "Unknown")
              (Some (json_dumps narrative)) (Some now) None
              (Some (dataQuality narrative))]
    /\ Forall (fun r => SqlRow.id r < rowid) (sink_rows db).
Proof.
  intros Hready.
  destruct (sink_rows_upsert now narrative db Hready) as (t & Hl & Hrows & Hnew).
  eexists. split.
  - unfold rows_for, upsert. rewrite Hl.
    unfold sink_rows. rewrite lookup_update_table, Hl.
    apply insert_or_replace_rows_for.
  - rewrite Hrows. eapply Forall_impl; [|apply max_rowid_bound].
    simpl. intros r Hr. lia.
Qed.

Lemma rows_after_writes writes : forall db k,
  sink_ready db = true ->
  ((forall t n, In (t, n) writes -> castle_name n <> k)
   /\ rows_for k (apply_writes writes db) = rows_for k db)
  \/ (exists rowid t n,
        In (t, n) writes /\ castle_name n = k
        /\ rows_for k (apply_writes writes db)
           = [SqlRow.mk rowid k (Some "Unknown") (Some (json_dumps n)) (Some t) None
                     (Some (dataQuality n))]).
Proof.
  induction writes as [|[t n] rest IH] using rev_ind; intros db k Hready.
  - left. split; [intros t n []|reflexivity].
  - rewrite apply_writes_app. cbn [apply_writes fold_left fst snd].
    fold (apply_writes rest db).
    destruct (String.eqb_spec (castle_name n) k) as [Hk|Hk].
    + right.
      destruct (rows_for_upsert_same t n (apply_writes rest db)) as (rowid & Hrow & _).
      { rewrite sink_ready_apply_writes. exact Hready. }
      exists rowid, t, n. split; [apply in_or_app; right; left; reflexivity|].
      split; [exact Hk|]. rewrite <- Hk. exact Hrow.
    + rewrite rows_for_upsert_other by congruence.
      destruct (IH db k Hready) as [[Hnone Hrows]|(rowid & t' & n' & Hin & Hk' & Hrows)].
      * left. split; [|exact Hrows].
        intros t' n' Hin. apply in_app_or in Hin. destruct Hin as [Hin|[Heq|[]]].
        -- eapply Hnone. exact Hin.
        -- inversion Heq; subst. exact Hk.
      * right. exists rowid, t', n'. split; [apply in_or_app; left; exact Hin|].
        split; assumption.
Qed.

Lemma upsert_keeps_unique now narrative db :
  unique_keys db -> unique_keys (upsert now narrative db).
Proof.
  intros H. destruct (sink_ready db) eqn:Hready.
  - destruct (sink_rows_upsert now narrative db Hready) as (t & _ & Hrows & Hnew).
    unfold unique_keys in *. rewrite Hnew.
    rewrite Hrows in H.
    apply (insert_or_replace_unique t (castle_name narrative) (Some "Unknown")
             (Some (json_dumps narrative)) (Some now) (Some (dataQuality narrative)) H).
  - rewrite upsert_not_ready by exact Hready. exact H.
Qed.

Lemma apply_writes_keeps_unique writes : forall db,
  unique_keys db -> unique_keys (apply_writes writes db).
Proof.
  induction writes as [|wr rest IH]; intros db H; simpl; [exact H|].
  apply IH, upsert_keeps_unique, H.
Qed.

Lemma batch_writes_narratives ready now next castle_batch :
  Permutation (map snd (batch_writes ready now next castle_batch))
              (successes (map (outcome ready) castle_batch)).
Proof.
  unfold batch_writes. rewrite map_map. simpl. rewrite map_id.
  rewrite (successes_map (fun t : nat * CastleData => outcome ready (snd t))).
  rewrite (Permutation_flat_map _ (completion_order_perm _)).
  rewrite <- (successes_map (fun t : nat * CastleData => outcome ready (snd t))).
  rewrite <- (map_map snd (outcome ready)), map_snd_combine_seq. reflexivity.
Qed.

Lemma run_writes_narratives ready bs : forall now next,
  Permutation (map snd (run_writes ready now next bs))
              (successes (map (outcome ready) (List.concat bs))).
Proof.
  induction bs as [|b rest IH]; intros now next; simpl; [reflexivity|].
  rewrite !map_app, successes_app. apply Permutation_app.
  - apply batch_writes_narratives.
  - apply IH.
Qed.

Lemma in_successes (f : CastleData -> Exception + Narrative) l n :
  In n (successes (map f l)) <-> exists c, In c l /\ f c = inr n.
Proof.
  rewrite successes_map, in_flat_map. split.
  - intros (c & Hc & Hn). exists c. split; [exact Hc|].
    destruct (f c) as [e|n']; simpl in Hn; [contradiction|].
    destruct Hn as [->|[]]. reflexivity.
  - intros (c & Hc & Hf). exists c. split; [exact Hc|]. rewrite Hf. left. reflexivity.
Qed.

Lemma outcome_ready castle : outcome true castle = generate castle.
Proof. unfold outcome. destruct (generate castle); reflexivity. Qed.

Lemma outcome_not_ready castle : raised (outcome false castle) = true.
Proof. unfold outcome. destruct (generate castle); reflexivity. Qed.

Lemma successes_not_ready l : successes (map (outcome false) l) = [].
Proof.
  induction l as [|c rest IH]; [reflexivity|].
  cbn [map]. rewrite successes_cons, IH.
  pose proof (outcome_not_ready c). destruct (outcome false c); [reflexivity|discriminate].
Qed.

(** ** Further properties of the sink and of a run *)


(** X2.  On a database file without the narratives table (one that
    [setup_database] never prepared), [_store_narrative] raises
    [sqlite3.OperationalError] and changes nothing; every item then
    fails, also those whose narrative was generated; and a run with a
    positive batch size does not raise: it returns 0 and leaves the
    database as it was. *)
Theorem missing_table_fails_every_item (source : string) (batch_size : Z) (w : World) :
  sink_ready (database w) = false ->
  0 < batch_size ->
  (forall narrative,
     _store_narrative narrative w
     = (inl (OperationalError "no such table: castle_narratives"), w))
  /\ (forall castle, raised (outcome_at w castle) = true)
  /\ result (process_thousands_of_castles source batch_size) w = inr 0
  /\ database (after (process_thousands_of_castles source batch_size) w)
     = database w.
Proof.
  intros Hready Hb. split; [|split; [|split]].
  - intros narrative. rewrite store_narrative_run. unfold sink_ready in Hready.
    destruct (lookup_table "castle_narratives" (database w)); [discriminate|reflexivity].
  - intros castle. rewrite outcome_at_eq, Hready. apply outcome_not_ready.
  - unfold result. rewrite process_thousands_full by exact Hb.
    cbn [fst]. rewrite Hready, successes_not_ready. reflexivity.
  - unfold after. rewrite process_thousands_full by exact Hb.
    cbn [snd database]. rewrite Hready.
    generalize (run_writes false (clock w) (next_task w)
                  (map (chunk (pipeline source) (Z.to_nat batch_size))
                       (seq 0 (Z.to_nat (range_len 0 (len (pipeline source)) batch_size))))).
    intros writes. revert Hready. generalize (database w) as db.
    induction writes as [|wr rest IH]; intros db Hready; simpl; [reflexivity|].
    rewrite upsert_not_ready by exact Hready. apply IH. exact Hready.
Qed.

(** X3.  After a run with a positive batch size on a prepared database:
    the key of every item that succeeded has exactly one row, holding
    the narrative and quality score of a successful item with that key
    and the time of its write; the rows of a key that no successful item
    has are as before, so an item that fails is never written; and keys
    stay unique. *)
Theorem sink_after_run (source : string) (batch_size : Z) (w : World) :
  sink_ready (database w) = true ->
  0 < batch_size ->
  let castle_data := pipeline source in
  let db' := database (after (process_thousands_of_castles source batch_size) w) in
  (forall castle narrative,
     In castle castle_data -> generate castle = inr narrative ->
     exists rowid now castle' narrative',
       In castle' castle_data /\ generate castle' = inr narrative'
       /\ castle_name narrative' = castle_name narrative
       /\ rows_for (castle_name narrative) db'
          = [SqlRow.mk rowid (castle_name narrative) (Some "Unknown")
                    (Some (json_dumps narrative')) (Some now) None
                    (Some (dataQuality narrative'))])
  /\ (forall k,
        (forall castle narrative,
           In castle castle_data -> generate castle = inr narrative ->
           castle_name narrative <> k) ->
        rows_for k db' = rows_for k (database w))
  /\ (unique_keys (database w) -> unique_keys db').
Proof.
  intros Hready Hb castle_data db'.
  set (bs := map (chunk castle_data (Z.to_nat batch_size))
                 (seq 0 (Z.to_nat (range_len 0 (len castle_data) batch_size)))).
  set (writes := run_writes true (clock w) (next_task w) bs).
  assert (Hdb : db' = apply_writes writes (database w)).
  { unfold db', after. rewrite process_thousands_full by exact Hb.
    cbn [snd database]. rewrite Hready. reflexivity. }
  assert (Hin : forall t n, In (t, n) writes <->
                            exists c, In c castle_data /\ generate c = inr n
                                      /\ In (t, n) writes).
  { intros t n. split; [|intros (_ & _ & _ & H); exact H].
    intros H. assert (Hn : In n (map snd writes)) by (apply (in_map snd _ _ H)).
    eapply Permutation_in in Hn; [|apply run_writes_narratives].
    unfold bs in Hn. rewrite (chunks_cover castle_data batch_size Hb) in Hn.
    apply in_successes in Hn. destruct Hn as (c & Hc & Hg).
    rewrite outcome_ready in Hg. exists c. auto. }
  assert (Hwritten : forall c n, In c castle_data -> generate c = inr n ->
                                 exists t, In (t, n) writes).
  { intros c n Hc Hg.
    assert (Hn : In n (map snd writes)).
    { eapply Permutation_in; [symmetry; apply run_writes_narratives|].
      unfold bs. rewrite (chunks_cover castle_data batch_size Hb).
      apply in_successes. exists c. rewrite outcome_ready. auto. }
    apply in_map_iff in Hn. destruct Hn as ([t n'] & Heq & Hin'). simpl in Heq.
    subst n'. exists t. exact Hin'. }
  split; [|split].
  - intros castle narrative Hc Hg. rewrite Hdb.
    destruct (rows_after_writes writes (database w) (castle_name narrative) Hready)
      as [[Hnone _]|(rowid & t & n & Hinw & Hk & Hrows)].
    + exfalso. destruct (Hwritten castle narrative Hc Hg) as (t & Ht).
      apply (Hnone t narrative Ht). reflexivity.
    + apply Hin in Hinw. destruct Hinw as (c' & Hc' & Hg' & _).
      exists rowid, t, c', n. auto.
  - intros k Hk. rewrite Hdb.
    destruct (rows_after_writes writes (database w) k Hready)
      as [[_ Hrows]|(rowid & t & n & Hinw & Hkn & _)]; [exact Hrows|].
    exfalso. apply Hin in Hinw. destruct Hinw as (c & Hc & Hg & _).
    apply (Hk c n Hc Hg Hkn).
  - intros Hu. rewrite Hdb. apply apply_writes_keeps_unique. exact Hu.
Qed.

(** X4.  A processor built by its constructor, which calls
    [setup_database], and then run with a positive batch size never
    raises and counts exactly the items whose narrative was generated:
    with the table in place no write fails.  [main], which does this
    with the default batch size of 50, never raises on any database. *)
Theorem constructed_processor_counts_generated
    (source : string) (batch_size : Z) (w : World) :
  0 < batch_size ->
  result (ScalableCastleProcessor_init ;;
          process_thousands_of_castles source batch_size) w
  = inr (len (filter (fun c => negb (raised (generate c))) (pipeline source)))
  /\ result main w = inr tt
  /\ sink_ready (database (after main w)) = true.
Proof.
  intros Hb.
  assert (Hinit : forall w0, exists w1,
            ScalableCastleProcessor_init w0 = (inr tt, w1)
            /\ sink_ready (database w1) = true).
  { intros w0. eexists. split; [apply setup_database_run|].
    cbn [database]. unfold sink_ready. rewrite lookup_create_table.
    destruct (lookup_table "castle_narratives" (database w0)); reflexivity. }
  assert (Hcount : forall l, len (successes (map (outcome true) l))
                             = len (filter (fun c => negb (raised (generate c))) l)).
  { intros l. unfold len. rewrite successes_map.
    rewrite <- (length_map (@inr Exception Narrative)), kept_filter, length_map.
    do 2 f_equal. apply filter_ext. intros c. rewrite outcome_ready. reflexivity. }
  split; [|split].
  - destruct (Hinit w) as (w1 & Hrun & Hready).
    unfold result, bind. rewrite Hrun.
    rewrite process_thousands_full by exact Hb. cbn [fst].
    rewrite Hready. f_equal. apply Hcount.
  - destruct (Hinit w) as (w1 & Hrun & Hready).
    unfold result, main, bind. rewrite Hrun.
    rewrite process_thousands_full by lia. reflexivity.
  - destruct (Hinit w) as (w1 & Hrun & Hready).
    unfold after, main, bind. rewrite Hrun.
    rewrite process_thousands_full by lia. cbn [snd ret database].
    rewrite sink_ready_apply_writes. exact Hready.
Qed.

Lemma NoDup_ids_filter (p : SqlRow.t -> bool) rs :
  NoDup (map SqlRow.id rs) -> NoDup (map SqlRow.id (filter p rs)).
Proof.
  induction rs as [|r rest IH]; simpl; intros H; [constructor|].
  inversion H as [|? ? Hnotin Hnd]; subst.
  destruct (p r); simpl; [|auto].
  constructor; [|auto].
  intros Hin. apply Hnotin. apply in_map_iff in Hin.
  destruct Hin as (r' & Hk & Hr'). apply filter_In in Hr'.
  rewrite <- Hk. apply in_map. tauto.
Qed.

(** X5.  A write gives its row a rowid larger than every rowid in the
    table, also when the key already has a row: the row of a key does
    not keep its id across writes.  Rowids stay distinct. *)
Theorem store_narrative_gives_fresh_rowid (narrative : Narrative) (w : World) :
  sink_ready (database w) = true ->
  let w' := after (_store_narrative narrative) w in
  exists rowid,
    map SqlRow.id (rows_for (castle_name narrative) (database w')) = [rowid]
    /\ Forall (fun r => SqlRow.id r < rowid) (sink_rows (database w))
    /\ (NoDup (map SqlRow.id (sink_rows (database w))) ->
        NoDup (map SqlRow.id (sink_rows (database w')))).
Proof.
  intros Hready w'. unfold w'. rewrite store_narrative_database.
  destruct (sink_rows_upsert (clock w) narrative (database w) Hready)
    as (t & Hl & Hrows & Hnew).
  exists (Z.max (seq_no t) (max_rowid (rows t)) + 1).
  assert (Hlt : Forall (fun r => SqlRow.id r < Z.max (seq_no t) (max_rowid (rows t)) + 1)
                       (rows t)).
  { eapply Forall_impl; [|apply max_rowid_bound]. simpl. intros r Hr. lia. }
  split; [|split].
  - unfold rows_for, upsert. rewrite Hl. unfold sink_rows.
    rewrite lookup_update_table, Hl, insert_or_replace_rows_for. reflexivity.
  - rewrite Hrows. exact Hlt.
  - intros Hnd. rewrite Hnew, map_app. cbn [map SqlRow.id].
    eapply Permutation_NoDup; [apply Permutation_cons_append|].
    constructor.
    + intros Hin. apply in_map_iff in Hin. destruct Hin as (r & Hr & Hin).
      apply filter_In in Hin. destruct Hin as [Hin _].
      rewrite Forall_forall in Hlt. specialize (Hlt r Hin). lia.
    + apply NoDup_ids_filter. rewrite <- Hrows. exact Hnd.
Qed.

Lemma upsert_written_by_store now narrative db :
  Forall written_by_store (sink_rows db) ->
  Forall written_by_store (sink_rows (upsert now narrative db)).
Proof.
  intros H. destruct (sink_ready db) eqn:Hready.
  - destruct (sink_rows_upsert now narrative db Hready) as (t & _ & Hrows & Hnew).
    rewrite Hnew. apply Forall_app. split.
    + rewrite Hrows in H. rewrite Forall_forall in H |- *.
      intros r Hr. apply filter_In in Hr. apply H, Hr.
    + constructor; [|constructor]. unfold written_by_store. simpl.
      repeat split; discriminate.
  - rewrite upsert_not_ready by exact Hready. exact H.
Qed.

Lemma apply_writes_written_by_store writes : forall db,
  Forall written_by_store (sink_rows db) ->
  Forall written_by_store (sink_rows (apply_writes writes db)).
Proof.
  induction writes as [|wr rest IH]; intros db H; simpl; [exact H|].
  apply IH, upsert_written_by_store, H.
Qed.

(** X6.  Rows are only ever written with the country ["Unknown"], a
    NULL [source_data] and the other columns set: if this holds of the
    table, it holds after a [_store_narrative] call and after a whole
    run; the country of a castle is never stored. *)
Theorem stored_rows_never_hold_the_country :
  (forall narrative w,
     Forall written_by_store (sink_rows (database w)) ->
     Forall written_by_store
            (sink_rows (database (after (_store_narrative narrative) w))))
  /\ (forall source batch_size w,
        0 < batch_size ->
        Forall written_by_store (sink_rows (database w)) ->
        Forall written_by_store
               (sink_rows (database
                  (after (process_thousands_of_castles source batch_size) w)))).
Proof.
  split.
  - intros narrative w H. rewrite store_narrative_database.
    apply upsert_written_by_store, H.
  - intros source batch_size w Hb H. unfold after.
    rewrite process_thousands_full by exact Hb. cbn [snd database].
    apply apply_writes_written_by_store, H.
Qed.

Lemma sink_keys_upsert now narrative db k :
  sink_ready db = true ->
  In k (sink_keys db) -> In k (sink_keys (upsert now narrative db)).
Proof.
  intros Hready Hin. unfold sink_keys in *.
  destruct (sink_rows_upsert now narrative db Hready) as (t & _ & Hrows & Hnew).
  rewrite Hnew, map_app. cbn [map SqlRow.castle_name]. apply in_or_app.
  destruct (String.eqb_spec k (castle_name narrative)) as [->|Hne];
    [right; left; reflexivity|left].
  rewrite Hrows in Hin. apply in_map_iff in Hin. destruct Hin as (r & Hr & Hin).
  apply in_map_iff. exists r. split; [exact Hr|].
  apply filter_In. split; [exact Hin|]. unfold conflicts.
  destruct (String.eqb_spec (SqlRow.castle_name r) (castle_name narrative));
    [congruence|reflexivity].
Qed.

Lemma one_row_of_present_key key rs :
  NoDup (map SqlRow.castle_name rs) -> In key (map SqlRow.castle_name rs) ->
  List.length (filter (conflicts key) rs) = 1%nat.
Proof.
  induction rs as [|r rest IH]; simpl; intros Hnd Hin; [contradiction|].
  inversion Hnd as [|? ? Hnotin Hnd']; subst. unfold conflicts at 1.
  destruct (String.eqb_spec (SqlRow.castle_name r) key) as [Hk|Hk]; simpl.
  - f_equal. destruct (filter (conflicts key) rest) as [|r' l] eqn:E; [reflexivity|].
    exfalso. apply Hnotin.
    assert (Hr' : In r' (filter (conflicts key) rest)) by (rewrite E; left; reflexivity).
    apply filter_In in Hr'. destruct Hr' as [Hr' Hc]. unfold conflicts in Hc.
    apply String.eqb_eq in Hc. rewrite Hk, <- Hc. apply in_map. exact Hr'.
  - destruct Hin as [Hin|Hin]; [contradiction|]. apply IH; assumption.
Qed.

Lemma upsert_present_key_count now narrative db :
  sink_ready db = true -> unique_keys db ->
  In (castle_name narrative) (sink_keys db) ->
  List.length (sink_rows (upsert now narrative db)) = List.length (sink_rows db).
Proof.
  intros Hready Hu Hin. unfold sink_keys, unique_keys in *.
  destruct (sink_rows_upsert now narrative db Hready) as (t & _ & Hrows & Hnew).
  rewrite Hnew, length_app, Hrows. rewrite Hrows in Hu, Hin. simpl.
  pose proof (filter_split_length (conflicts (castle_name narrative)) (rows t)) as Hs.
  rewrite (one_row_of_present_key _ _ Hu Hin) in Hs. lia.
Qed.

Lemma apply_writes_present_keys_count writes : forall db,
  sink_ready db = true -> unique_keys db ->
  (forall wr, In wr writes -> In (castle_name (snd wr)) (sink_keys db)) ->
  List.length (sink_rows (apply_writes writes db)) = List.length (sink_rows db).
Proof.
  induction writes as [|wr rest IH]; intros db Hready Hu Hin; simpl; [reflexivity|].
  rewrite IH.
  - apply upsert_present_key_count; [exact Hready|exact Hu|].
    apply Hin. left. reflexivity.
  - rewrite sink_ready_upsert. exact Hready.
  - apply upsert_keeps_unique, Hu.
  - intros wr' Hwr'. apply sink_keys_upsert; [exact Hready|].
    apply Hin. right. exact Hwr'.
Qed.

Lemma written_keys_are_present writes db t n :
  sink_ready db = true -> In (t, n) writes ->
  In (castle_name n) (sink_keys (apply_writes writes db)).
Proof.
  intros Hready Hin.
  destruct (rows_after_writes writes db (castle_name n) Hready)
    as [[Hnone _]|(rowid & t' & n' & _ & _ & Hrows)].
  - exfalso. apply (Hnone t n Hin). reflexivity.
  - unfold sink_keys.
    assert (Hr : In (SqlRow.mk rowid (castle_name n) (Some "Unknown")
                            (Some (json_dumps n')) (Some t') None
                            (Some (dataQuality n')))
                    (rows_for (castle_name n) (apply_writes writes db)))
      by (rewrite Hrows; left; reflexivity).
    unfold rows_for in Hr. apply filter_In in Hr. destruct Hr as [Hr _].
    apply (in_map SqlRow.castle_name) in Hr. exact Hr.
Qed.

(** X7.  Running the same items again does not grow the sink: after a
    run on a prepared database with unique keys, a second run over the
    same source, with any positive batch size, leaves the number of rows
    unchanged (each key it writes is overwritten in place). *)
Theorem rerun_does_not_grow_sink (source : string) (batch_size batch_size' : Z)
    (w : World) :
  sink_ready (database w) = true ->
  unique_keys (database w) ->
  0 < batch_size -> 0 < batch_size' ->
  let w1 := after (process_thousands_of_castles source batch_size) w in
  let w2 := after (process_thousands_of_castles source batch_size') w1 in
  List.length (sink_rows (database w2)) = List.length (sink_rows (database w1))
  /\ unique_keys (database w2).
Proof.
  intros Hready Hu Hb Hb' w1 w2.
  set (castle_data := pipeline source).
  set (writes1 := run_writes true (clock w) (next_task w)
                    (map (chunk castle_data (Z.to_nat batch_size))
                         (seq 0 (Z.to_nat (range_len 0 (len castle_data) batch_size))))).
  assert (Hdb1 : database w1 = apply_writes writes1 (database w)).
  { unfold w1, after. rewrite process_thousands_full by exact Hb.
    cbn [snd database]. rewrite Hready. reflexivity. }
  assert (Hready1 : sink_ready (database w1) = true)
    by (rewrite Hdb1, sink_ready_apply_writes; exact Hready).
  assert (Hu1 : unique_keys (database w1))
    by (rewrite Hdb1; apply apply_writes_keeps_unique, Hu).
  set (writes2 := run_writes true (clock w1) (next_task w1)
                    (map (chunk castle_data (Z.to_nat batch_size'))
                         (seq 0 (Z.to_nat (range_len 0 (len castle_data) batch_size'))))).
  assert (Hdb2 : database w2 = apply_writes writes2 (database w1)).
  { unfold w2, after. rewrite process_thousands_full by exact Hb'.
    cbn [snd database]. rewrite Hready1. reflexivity. }
  rewrite Hdb2. split; [|apply apply_writes_keeps_unique, Hu1].
  apply apply_writes_present_keys_count; [exact Hready1|exact Hu1|].
  intros [t n] Hin. cbn [snd].
  assert (Hn : In n (map snd writes1)).
  { apply (in_map snd) in Hin. cbn [snd] in Hin.
    eapply Permutation_in in Hin; [|apply run_writes_narratives].
    rewrite (chunks_cover castle_data batch_size' Hb') in Hin.
    eapply Permutation_in; [symmetry; apply run_writes_narratives|].
    rewrite (chunks_cover castle_data batch_size Hb). exact Hin. }
  apply in_map_iff in Hn. destruct Hn as ([t1 n1] & Heq & Hin1). cbn [snd] in Heq.
  subst n1. rewrite Hdb1. eapply written_keys_are_present; [exact Hready|exact Hin1].
Qed.




(** X9.  With no items the driver does nothing: for every non-zero
    batch size it returns 0, starts no task, never sleeps and leaves the
    database and the clock as they were. *)
Theorem empty_pipeline_runs_nothing (source : string) (batch_size : Z) (w : World) :
  pipeline source = [] ->
  batch_size <> 0 ->
  let w' := after (process_thousands_of_castles source batch_size) w in
  result (process_thousands_of_castles source batch_size) w = inr 0
  /\ database w' = database w /\ trace w' = trace w
  /\ clock w' = clock w /\ next_task w' = next_task w.
Proof.
  intros Hsrc Hb w'. unfold w', result, after.
  destruct (Z.lt_trichotomy batch_size 0) as [Hneg|[Hz|Hpos]]; [|contradiction|].
  - destruct (process_thousands_run_neg source batch_size w Hneg) as (lg' & ->).
    cbn. auto.
  - rewrite process_thousands_full by exact Hpos. rewrite Hsrc.
    assert (Hl : range_len 0 (len (@nil CastleData)) batch_size = 0).
    { unfold range_len, len. cbn [List.length Z.of_nat].
      destruct (0 <? batch_size); reflexivity. }
    rewrite Hl. cbn. rewrite app_nil_r, Nat.add_0_r. auto.
Qed.


End ScalableCastleProcessor.

(** C5 (stable filter of successes).  The list returned for a batch is
    the batch filtered to the items that succeed, in submission order,
    each with its own result; it is the same whatever the order in which
    the tasks complete; and for [a; b; c; d] where only [b] fails it is
    the results of [a], [c], [d] in that order. *)
Theorem successes_keep_submission_order
    (json_dumps : Narrative -> string)
    (generate : CastleData -> Exception + Narrative)
    (latency latency' : nat -> nat)
    (castle_batch : list CastleData) (w : World) :
  let outcome_of := outcome_at json_dumps generate w in
  (exists narratives,
     result (process_castle_batch json_dumps generate latency castle_batch) w
     = inr narratives
     /\ map inr narratives
        = map outcome_of (filter (fun c => negb (raised (outcome_of c))) castle_batch))
  /\ result (process_castle_batch json_dumps generate latency castle_batch) w
     = result (process_castle_batch json_dumps generate latency' castle_batch) w
  /\ (forall a b c d na eb nc nd,
        outcome_of a = inr na -> outcome_of b = inl eb ->
        outcome_of c = inr nc -> outcome_of d = inr nd ->
        result (process_castle_batch json_dumps generate latency [a; b; c; d]) w
        = inr [na; nc; nd]).
Proof.
  intros outcome_of. split; [|split].
  - eexists. split; [apply process_castle_batch_result|]. apply kept_filter.
  - rewrite !process_castle_batch_result. reflexivity.
  - intros a b c d na eb nc nd Ha Hb Hc Hd.
    rewrite process_castle_batch_result. simpl.
    fold outcome_of. rewrite Ha, Hb, Hc, Hd. reflexivity.
Qed.

(** ** The worked example *)

Lemma failure_isolation_example :
  outcome_at example_json_dumps example_generate ready_world (example_castle "X2")
  = inl (mkException "RuntimeError" "boom")
  /\ exists narratives,
       result (process_castle_batch example_json_dumps example_generate example_latency
                 [example_castle "X1"; example_castle "X2"; example_castle "X3"])
              ready_world
       = inr narratives
       /\ List.length narratives = 2%nat
       /\ result (process_thousands_of_castles example_json_dumps example_generate
                    example_latency example_pipeline "three" 2) ready_world
          = inr 2.
Proof.
  split; [reflexivity|].
  destruct (failure_isolation example_json_dumps example_generate example_latency
              example_pipeline
              [example_castle "X1"] [example_castle "X3"] (example_castle "X2")
              (mkException "RuntimeError" "boom") ready_world)
    as (narratives & Hres & _ & Hlen & _ & Hrun).
  - reflexivity.
  - intros c [<-|[<-|[]]]; reflexivity.
  - exists narratives. split; [exact Hres|]. split; [simpl in Hlen; lia|].
    apply (Hrun "three" 2); [lia|reflexivity].
Defined.


Lemma dispatcher_raises_only_for_zero_batch_size_example :
  result (process_thousands_of_castles example_json_dumps example_generate
            example_latency example_pipeline "three" 2) ready_world
  = inr 2
  /\ result (process_thousands_of_castles example_json_dumps example_generate
               example_latency example_pipeline "three" 0) ready_world
     = inl (ValueError "range() arg 3 must not be zero")
  /\ result (process_thousands_of_castles example_json_dumps example_generate
               example_latency example_pipeline "three" (-1)) ready_world
     = inr 0
  /\ result (process_thousands_of_castles example_json_dumps
               (fun _ => inl (mkException "RuntimeError" "boom"))
               example_latency example_pipeline "three" 2) ready_world
     = inr 0.
Proof.
  split; [|split; [|split]].
  - apply (proj1 (dispatcher_raises_only_for_zero_batch_size example_json_dumps
                    example_generate example_latency example_pipeline
                    "three" 2 ready_world)).
    lia.
  - apply (proj1 (proj2 (proj2 (dispatcher_raises_only_for_zero_batch_size
                    example_json_dumps example_generate example_latency
                    example_pipeline "three" 0 ready_world)))).
    reflexivity.
  - apply (proj1 (proj2 (proj2 (proj2 (dispatcher_raises_only_for_zero_batch_size
                    example_json_dumps example_generate example_latency
                    example_pipeline "three" (-1) ready_world))))).
    lia.
  - apply (proj1 (proj2 (dispatcher_raises_only_for_zero_batch_size
                    example_json_dumps
                    (fun _ => inl (mkException "RuntimeError" "boom"))
                    example_latency example_pipeline "three" 2 ready_world))).
    + lia.
    + intros c _. reflexivity.
Defined.

(** With [batch_size = -1], which the claim counts as a malformed call
    to be raised, the run returns 0 and raises nothing. *)
Lemma negative_batch_size_is_not_raised :
  -1 <= 0
  /\ result (process_thousands_of_castles example_json_dumps example_generate
               example_latency example_pipeline "three" (-1)) ready_world
     = inr 0
  /\ ~ (exists e,
          result (process_thousands_of_castles example_json_dumps example_generate
                    example_latency example_pipeline "three" (-1)) ready_world
          = inl e).
Proof.
  split; [lia|]. split; [reflexivity|]. intros [e He]. discriminate He.
Qed.

Lemma keyed_upsert_example :
  let first := mkNarrative "X1" "draft" (1 # 5)%Q in
  let second := mkNarrative "X1" "final" (4 # 5)%Q in
  let other := mkNarrative "X3" "text" (1 # 2)%Q in
  let w1 := ready_world in
  let w2 := after (asyncio_sleep 1) (after (_store_narrative example_json_dumps first) w1) in
  unique_keys (database (after (_store_narrative example_json_dumps first) w1))
  /\ unique_keys
       (database (after (store_all example_json_dumps [first; other; second]) w1))
  /\ exists rowid,
       rows_for "X1" (database (after (_store_narrative example_json_dumps second) w2))
       = [SqlRow.mk rowid "X1" (Some "Unknown") (Some "{X1: final}") (Some 1%Q) None
                 (Some (4 # 5)%Q)].
Proof.
  intros first second other w1 w2.
  assert (Hu : unique_keys (database w1)) by (unfold unique_keys; simpl; constructor).
  split; [|split].
  - apply (proj1 (keyed_upsert example_json_dumps) w1 first Hu).
  - apply (proj1 (proj2 (keyed_upsert example_json_dumps)) w1
             [first; other; second] Hu).
  - destruct (proj2 (proj2 (keyed_upsert example_json_dumps)) w1 w2 first second)
      as (rowid & _ & Hrows).
    + reflexivity.
    + reflexivity.
    + reflexivity.
    + exists rowid. exact Hrows.
Defined.

Lemma successes_keep_submission_order_example :
  result (process_castle_batch example_json_dumps example_generate example_latency
            [example_castle "a"; example_castle "X2"; example_castle "c";
             example_castle "d"])
         ready_world
  = inr [mkNarrative "a" "text" (1 # 2)%Q; mkNarrative "c" "text" (1 # 2)%Q;
         mkNarrative "d" "text" (1 # 2)%Q].
Proof.
  apply (proj2 (proj2 (successes_keep_submission_order example_json_dumps
                         example_generate example_latency (fun task => task)
                         [] ready_world))
           (example_castle "a") (example_castle "X2") (example_castle "c")
           (example_castle "d") _ (mkException "RuntimeError" "boom") _ _);
    reflexivity.
Defined.

Lemma batch_barrier_example :
  0 < 2
  /\ let events :=
       trace (after (process_thousands_of_castles example_json_dumps example_generate
                       example_latency example_pipeline "three" 2) ready_world) in
     events = [Started 0; Started 1; Settled 1; Settled 0; Slept 1;
               Started 2; Settled 2; Slept 1]
     /\ In (Settled 0) [Started 0; Started 1; Settled 1; Settled 0; Slept 1]
     /\ In (Settled 1) [Started 0; Started 1; Settled 1; Settled 0; Slept 1].
Proof.
  split; [lia|]. intros events.
  assert (Hev : events = [Started 0; Started 1; Settled 1; Settled 0; Slept 1;
                          Started 2; Settled 2; Slept 1]) by reflexivity.
  destruct (batch_barrier example_json_dumps example_generate example_latency
              example_pipeline "three" 2
              (database ready_world) (clock ready_world) (log ready_world)
              ltac:(lia))
    as (_ & _ & Hbar & _).
  split; [exact Hev|]. split.
  - apply (Hbar [Started 0; Started 1; Settled 1; Settled 0; Slept 1]
                [Settled 2; Slept 1] 2%nat 0%nat); [exact Hev|].
    simpl. lia.
  - apply (Hbar [Started 0; Started 1; Settled 1; Settled 0; Slept 1]
                [Settled 2; Slept 1] 2%nat 1%nat); [exact Hev|].
    simpl. lia.
Defined.



Lemma pacing_delay_is_one_second_example :
  0 < 50
  /\ sleeps (trace (after (process_thousands_of_castles example_json_dumps
                             example_generate example_latency sample_castles
                             "worker4_castle_pipeline.json" 50) ready_world))
     = [1%Q].
Proof.
  split; [lia|].
  destruct (pacing_delay_is_one_second example_json_dumps example_generate
              example_latency sample_castles "worker4_castle_pipeline.json" 50
              ready_world ltac:(lia))
    as (bs & Hbs & Hsl).
  rewrite Hsl. injection Hbs as <-. reflexivity.
Defined.

(** No choice of the arguments of the driver makes it skip the delay or
    sleep for 0: whenever batches run, it sleeps for 1. *)
Lemma pacing_delay_is_not_configurable :
  ~ (exists source batch_size,
       0 < batch_size
       /\ Forall (fun d => (d == 0)%Q)
                 (sleeps (trace (after (process_thousands_of_castles
                                          example_json_dumps example_generate
                                          example_latency example_pipeline
                                          source batch_size) ready_world)))).
Proof.
  intros (source & batch_size & Hb & Hall).
  unfold after in Hall.
  destruct (process_thousands_run_pos example_json_dumps example_generate
              example_latency example_pipeline source batch_size ready_world Hb)
    as (db' & clk' & lg' & _ & Hrun).
  rewrite Hrun in Hall. simpl in Hall. rewrite sleeps_run_events in Hall.
  rewrite length_map, length_seq in Hall.
  destruct (range_len_pos (len (example_pipeline source)) batch_size Hb)
    as (Hc & Hbd & _).
  { unfold len. lia. }
  assert (Hn : 0 < len (example_pipeline source)).
  { unfold example_pipeline. destruct (String.eqb source "two"); reflexivity. }
  destruct (Z.to_nat (range_len 0 (len (example_pipeline source)) batch_size))
    as [|n] eqn:E; [nia|].
  simpl in Hall. inversion Hall as [|? ? H1 _]. discriminate H1.
Qed.

(** ** Properties of the quality score *)

Ltac quality_cases castle :=
  unfold _assess_data_quality, core_fields, enrichments;
  destruct (truthy_str (name castle)), (truthy_str (location castle)),
           (truthy_int (built_year castle)),
           (truthy_str (architectural_style castle)),
           (truthy_list (notable_rulers castle)),
           (truthy_list (military_events castle)),
           (2 <? len (external_sources castle)),
           (match dict_get "wikipedia_summary" (raw_data castle) with
            | Some v => truthy_str v
            | None => false
            end).

(** X11.  The quality score of every castle, computed in binary64
    arithmetic, lies between 0 and 1. *)
Theorem data_quality_is_between_0_and_1 (castle : CastleData) :
  PrimFloat.leb 0%float (_assess_data_quality castle) = true
  /\ PrimFloat.leb (_assess_data_quality castle) 1%float = true.
Proof. quality_cases castle; vm_compute; split; reflexivity. Qed.

(** X12.  The score is exactly 1.0 when, counting 2 for each core field
    present (name, location, a non-zero year, style) and 1 for each
    enrichment (rulers, events, more than two sources, a Wikipedia
    summary), the total reaches 10; it is exactly 0.0 when nothing is
    present; rounding never makes a full record miss 1.0. *)
Theorem data_quality_extremes (castle : CastleData) :
  PrimFloat.eqb (_assess_data_quality castle) 1%float
  = (10 <=? 2 * core_fields castle + enrichments castle)
  /\ PrimFloat.eqb (_assess_data_quality castle) 0%float
     = (core_fields castle + enrichments castle =? 0).
Proof. quality_cases castle; vm_compute; split; reflexivity. Qed.

(** ** Properties of the narrative generator *)

Lemma slice_prefix {A} (l : list A) (n : nat) :
  slice l 0 (Z.of_nat n) = firstn n l.
Proof.
  unfold slice, clip, len.
  destruct (Z.ltb_spec 0 0) as [|_]; [lia|].
  destruct (Z.ltb_spec (Z.of_nat n) 0) as [|_]; [lia|].
  rewrite (Z.min_l 0) by lia. rewrite Z.sub_0_r. cbn [Z.to_nat skipn].
  rewrite <- (firstn_min_length l n). f_equal. lia.
Qed.

Lemma slice_first_three {A} (l : list A) : slice l 0 3 = firstn 3 l.
Proof. exact (slice_prefix l 3). Qed.

Lemma fold_left_append {A B} (f : A -> B) (l : list A) : forall acc,
  fold_left (fun acc x => acc ++ [f x]) l acc = acc ++ map f l.
Proof.
  induction l as [|x rest IH]; intros acc; simpl.
  - symmetry. apply app_nil_r.
  - rewrite IH, <- app_assoc. reflexivity.
Qed.

(** X13.  [generate_legends] makes one legend for each of the first three
    rulers, in their order and with repeats, then the master-builder
    legend when the style contains "Gothic": so at most four legends,
    and none at all exactly when there is no ruler and no "Gothic". *)
Theorem legends_follow_the_first_three_rulers (castle : CastleData) :
  let legends := generate_legends castle in
  map (dict_get "title") legends
  = map (fun ruler => Some ("The Spirit of " ++ ruler)%string)
        (firstn 3 (notable_rulers castle))
    ++ (if contains "Gothic" (architectural_style castle)
        then [Some "The Master Builder's Secret"] else [])
  /\ (List.length legends <= 4)%nat
  /\ (legends = [] <->
      notable_rulers castle = []
      /\ contains "Gothic" (architectural_style castle) = false).
Proof.
  intros legends. unfold legends, generate_legends.
  rewrite (slice_first_three (notable_rulers castle)).
  rewrite (fold_left_append
             (fun ruler =>
                [("title", ("The Spirit of " ++ ruler)%string);
                 ("narrative", _generate_ruler_legend ruler castle);
                 ("historical_context",
                  ("Based on the historical reign of " ++ ruler)%string)])).
  cbn [app].
  assert (Hlen : (List.length (firstn 3 (notable_rulers castle)) <= 3)%nat)
    by (rewrite length_firstn; lia).
  destruct (contains "Gothic" (architectural_style castle)).
  - split; [|split].
    + rewrite map_app, map_map. reflexivity.
    + rewrite length_app, length_map. cbn [List.length]. lia.
    + split.
      * intros H. apply app_eq_nil in H. destruct H as [_ H]. discriminate H.
      * intros [_ H]. discriminate H.
  - split; [|split].
    + rewrite map_map, app_nil_r. reflexivity.
    + rewrite length_map. lia.
    + split.
      * intros H. split; [|reflexivity].
        destruct (notable_rulers castle); [reflexivity|discriminate H].
      * intros [-> _]. reflexivity.
Qed.

(** X14.  [generate_historical_events] makes one event per military
    event, in order; the events differ only in their name: participants,
    outcome, significance, tactics and legacy are the same five texts
    for every event of every castle. *)
Theorem historical_events_differ_only_in_name :
  exists common : Dict string,
    dict_keys common = ["participants"; "outcome"; "significance"; "tactics"; "legacy"]
    /\ forall castle,
         generate_historical_events castle
         = map (fun event_name => ("name", event_name) :: common)
               (military_events castle).
Proof.
  exists [("participants", "Medieval forces vs. defending garrison");
          ("outcome", "Strategic victory with lasting political consequences");
          ("significance", "Marked turning point in regional power dynamics");
          ("tactics", "Combined siege warfare with diplomatic pressure");
          ("legacy", "Influenced subsequent military and political developments")].
  split; [reflexivity|]. intros castle. unfold generate_historical_events.
  rewrite (fold_left_append
             (fun event_name =>
                [("name", event_name);
                 ("participants", _extract_participants event_name castle);
                 ("outcome", _generate_outcome event_name castle);
                 ("significance", _analyze_significance event_name castle);
                 ("tactics", _describe_tactics event_name castle);
                 ("legacy", _assess_legacy event_name castle)])).
  reflexivity.
Qed.

Lemma dict_get_set_same {V} (k : string) (v : V) d :
  dict_get k (dict_set k v d) = Some v.
Proof.
  induction d as [|[k' v'] rest IH]; simpl.
  - rewrite String.eqb_refl. reflexivity.
  - destruct (String.eqb k' k) eqn:E; simpl; rewrite E; auto.
Qed.

Lemma dict_get_set_other {V} (k k' : string) (v : V) d :
  k' <> k -> dict_get k' (dict_set k v d) = dict_get k' d.
Proof.
  intros Hne. induction d as [|[k0 v0] rest IH]; simpl.
  - destruct (String.eqb_spec k k'); [congruence|reflexivity].
  - destruct (String.eqb_spec k0 k) as [->|Hk]; simpl.
    + destruct (String.eqb_spec k k'); [congruence|reflexivity].
    + destruct (String.eqb k0 k'); [reflexivity|exact IH].
Qed.

Lemma dict_keys_set {V} (k : string) (v : V) d k' :
  In k' (dict_keys (dict_set k v d)) <-> k' = k \/ In k' (dict_keys d).
Proof.
  unfold dict_keys. induction d as [|[k0 v0] rest IH]; simpl.
  - intuition congruence.
  - destruct (String.eqb_spec k0 k) as [->|Hk]; simpl.
    + intuition congruence.
    + rewrite IH. intuition congruence.
Qed.

Lemma dict_set_keeps_keys_distinct {V} (k : string) (v : V) d :
  NoDup (dict_keys d) -> NoDup (dict_keys (dict_set k v d)).
Proof.
  unfold dict_keys. induction d as [|[k0 v0] rest IH]; simpl; intros H.
  - constructor; [intros []|constructor].
  - inversion H as [|? ? Hnotin Hnd]; subst.
    destruct (String.eqb_spec k0 k) as [->|Hk]; simpl.
    + constructor; assumption.
    + constructor; [|apply IH; exact Hnd].
      intros Hin. apply (dict_keys_set k v rest k0) in Hin.
      destruct Hin as [Heq|Hin]; [congruence|contradiction].
Qed.

Lemma dict_set_length {V} (k : string) (v : V) d :
  (List.length (dict_set k v d) <= S (List.length d))%nat.
Proof.
  induction d as [|[k0 v0] rest IH]; simpl; [lia|].
  destruct (String.eqb k0 k); simpl; lia.
Qed.

Lemma biographies_fold (castle : CastleData) (rulers : list string) : forall d,
  let d' := fold_left
              (fun biographies ruler =>
                 dict_set ruler (generate_ruler_biography ruler castle) biographies)
              rulers d in
  (NoDup (dict_keys d) -> NoDup (dict_keys d'))
  /\ (forall r, In r (dict_keys d') <-> In r rulers \/ In r (dict_keys d))
  /\ (forall r, In r rulers ->
        dict_get r d' = Some (generate_ruler_biography r castle))
  /\ (forall r, ~ In r rulers -> dict_get r d' = dict_get r d)
  /\ (List.length d' <= List.length rulers + List.length d)%nat.
Proof.
  induction rulers as [|ruler rest IH]; intros d; cbn [fold_left].
  - cbv zeta. split; [auto|]. split; [intros r; simpl; tauto|].
    split; [intros r []|]. split; [reflexivity|]. simpl. lia.
  - specialize (IH (dict_set ruler (generate_ruler_biography ruler castle) d)).
    cbv zeta in IH |- *. destruct IH as (Hnd & Hkeys & Hget & Hother & Hlen).
    split; [|split; [|split; [|split]]].
    + intros H. apply Hnd, dict_set_keeps_keys_distinct, H.
    + intros r. rewrite Hkeys, dict_keys_set. simpl. intuition congruence.
    + intros r Hr.
      destruct (in_dec String.string_dec r rest) as [Hin|Hnotin]; [apply Hget, Hin|].
      rewrite Hother by exact Hnotin.
      destruct Hr as [->|Hr]; [apply dict_get_set_same|contradiction].
    + intros r Hr. rewrite Hother by (intros H; apply Hr; right; exact H).
      apply dict_get_set_other. intros ->. apply Hr. left. reflexivity.
    + pose proof (dict_set_length ruler (generate_ruler_biography ruler castle) d).
      simpl. lia.
Qed.

(** X15.  The [rulerBiographies] dict has one entry per distinct ruler
    among the first three: its keys are distinct and are exactly those
    rulers, looking up any of them gives that ruler's biography, and
    there are at most three entries (a ruler listed twice gets two
    legends but one biography). *)
Theorem ruler_biographies_are_keyed_by_ruler (castle : CastleData) :
  let biographies := ruler_biographies castle in
  let rulers := firstn 3 (notable_rulers castle) in
  NoDup (dict_keys biographies)
  /\ (forall r, In r (dict_keys biographies) <-> In r rulers)
  /\ (forall r, In r rulers ->
        dict_get r biographies = Some (generate_ruler_biography r castle)
        /\ dict_get "fullName" (generate_ruler_biography r castle) = Some r)
  /\ (List.length biographies <= 3)%nat.
Proof.
  intros biographies rulers. unfold biographies, ruler_biographies.
  rewrite (slice_first_three (notable_rulers castle)). fold rulers.
  destruct (biographies_fold castle rulers []) as (Hnd & Hkeys & Hget & _ & Hlen).
  split; [apply Hnd; constructor|]. split; [|split].
  - intros r. rewrite Hkeys. simpl. tauto.
  - intros r Hr. split; [apply Hget, Hr|reflexivity].
  - assert (List.length rulers <= 3)%nat by (unfold rulers; rewrite length_firstn; lia).
    simpl in Hlen. lia.
Qed.

(** X16.  The two tests for Gothic disagree: for a style that contains
    "Gothic" without being exactly "Gothic", [generate_legends] adds the
    master-builder legend while [_derive_cultural_meaning] falls back to
    its default meaning. *)
Theorem gothic_by_substring_but_not_by_key (castle : CastleData) :
  contains "Gothic" (architectural_style castle) = true ->
  architectural_style castle <> "Gothic" ->
  In [("title", "The Master Builder's Secret");
      ("narrative", _generate_architectural_legend castle);
      ("symbolism", "Represents medieval craftsmanship and divine inspiration")]
     (generate_legends castle)
  /\ _derive_cultural_meaning castle = "political and cultural authority".
Proof.
  intros Hsub Hne. split.
  - unfold generate_legends. rewrite Hsub. apply in_or_app. right. left. reflexivity.
  - unfold _derive_cultural_meaning. cbn [dict_get].
    destruct (String.eqb_spec "Gothic" (architectural_style castle)) as [H|_];
      [congruence|].
    destruct (String.eqb_spec "Romanesque" (architectural_style castle)) as [H|_];
      [rewrite <- H in Hsub; discriminate Hsub|].
    destruct (String.eqb_spec "Renaissance" (architectural_style castle)) as [H|_];
      [rewrite <- H in Hsub; discriminate Hsub|].
    destruct (String.eqb_spec "Islamic" (architectural_style castle)) as [H|_];
      [rewrite <- H in Hsub; discriminate Hsub|].
    reflexivity.
Qed.

(** X17.  [_get_primary_period] answers its default, "Medieval period",
    exactly when the year is missing or is 0 (a year of 0 counts as
    missing); every other year, negative ones included, gets one of the
    four dated periods. *)
Theorem default_period_iff_year_is_missing_or_zero (castle : CastleData) :
  (_get_primary_period castle = "Medieval period"
   <-> built_year castle = None \/ built_year castle = Some 0)
  /\ (forall year, built_year castle = Some year -> year <> 0 ->
        _get_primary_period castle
        = if year <? 1000 then "Early Medieval period"
          else if year <? 1300 then "High Medieval period"
          else if year <? 1500 then "Late Medieval period"
          else "Early Modern period").
Proof.
  unfold _get_primary_period, truthy_int.
  destruct (built_year castle) as [year|].
  - destruct (Z.eqb_spec year 0) as [->|Hne]; cbn [negb].
    + split; [split; auto|]. intros year [= <-] H. contradiction.
    + split.
      * split.
        -- destruct (year <? 1000); [discriminate|].
           destruct (year <? 1300); [discriminate|].
           destruct (year <? 1500); discriminate.
        -- intros [H|H]; [discriminate H|]. inversion H. contradiction.
      * intros y [= <-] _. reflexivity.
  - split; [split; auto|]. intros year H. discriminate H.
Qed.

(** ** Properties of the fetch helpers *)

Lemma fetch_wikipedia_data_run (session : Session) (castle_name : string) (w : World) :
  _fetch_wikipedia_data session castle_name w
  = match session (wikipedia_api ++ castle_name)%string [] with
    | inl e =>
        (inr (JObj []),
         with_log w [mkLog ERROR ("Error fetching Wikipedia data for " ++ castle_name
                                    ++ ": " ++ exc_text e)%string])
    | inr response =>
        if status response =? 200
        then match json response with
             | inr body => (inr body, w)
             | inl e =>
                 (inr (JObj []),
                  with_log w [mkLog ERROR ("Error fetching Wikipedia data for "
                                             ++ castle_name ++ ": " ++ exc_text e)%string])
             end
        else (inr (JObj []),
              with_log w [mkLog WARNING ("Wikipedia API error for " ++ castle_name ++ ": "
                                           ++ str_int (status response))%string])
    end.
Proof.
  unfold _fetch_wikipedia_data, try_except, bind, lift.
  destruct (session (wikipedia_api ++ castle_name)%string []) as [e|response].
  - reflexivity.
  - destruct (status response =? 200).
    + destruct (json response); reflexivity.
    + reflexivity.
Qed.

(** X18.  [_fetch_wikipedia_data] never raises, whatever the request
    does, and changes nothing but the log.  It returns the decoded body
    when the status is 200 and the body decodes, and logs nothing then;
    for any other status it returns an empty dict and logs one WARNING
    with the status; when the request or the decoding raises it returns
    an empty dict and logs one ERROR with the exception's text. *)
Theorem fetch_wikipedia_data_never_raises
    (session : Session) (castle_name : string) (w : World) :
  let request := session (wikipedia_api ++ castle_name)%string [] in
  let run := _fetch_wikipedia_data session castle_name w in
  (exists v, fst run = inr v)
  /\ database (snd run) = database w /\ clock (snd run) = clock w
  /\ trace (snd run) = trace w
  /\ (forall response body,
        request = inr response -> status response = 200 ->
        json response = inr body ->
        run = (inr body, w))
  /\ (forall response,
        request = inr response -> status response <> 200 ->
        run = (inr (JObj []),
               with_log w [mkLog WARNING ("Wikipedia API error for " ++ castle_name
                                            ++ ": " ++ str_int (status response))%string]))
  /\ (forall e,
        request = inl e
        \/ (exists response,
              request = inr response /\ status response = 200
              /\ json response = inl e) ->
        run = (inr (JObj []),
               with_log w [mkLog ERROR ("Error fetching Wikipedia data for "
                                          ++ castle_name ++ ": " ++ exc_text e)%string])).
Proof.
  intros request run. unfold run. rewrite fetch_wikipedia_data_run.
  subst request. cbv zeta.
  destruct (session (wikipedia_api ++ castle_name)%string []) as [e|r].
  - split; [|split; [|split; [|split; [|split; [|split]]]]].
    + eexists. reflexivity.
    + reflexivity.
    + reflexivity.
    + reflexivity.
    + intros response body H. discriminate H.
    + intros response H. discriminate H.
    + intros e' [H|(response & H & _)]; [|discriminate H].
      inversion H. reflexivity.
  - destruct (Z.eqb_spec (status r) 200) as [H200|Hne].
    + destruct (json r) as [e|body] eqn:Hjson.
      * split; [|split; [|split; [|split; [|split; [|split]]]]].
        -- eexists. reflexivity.
        -- reflexivity.
        -- reflexivity.
        -- reflexivity.
        -- intros response b H _ Hb. inversion H; subst response.
           rewrite Hjson in Hb. discriminate Hb.
        -- intros response H Hs. inversion H; subst response. contradiction.
        -- intros e' [H|(response & H & _ & Hj)]; [discriminate H|].
           inversion H; subst response. rewrite Hjson in Hj.
           inversion Hj. reflexivity.
      * split; [|split; [|split; [|split; [|split; [|split]]]]].
        -- eexists. reflexivity.
        -- reflexivity.
        -- reflexivity.
        -- reflexivity.
        -- intros response b H _ Hb. inversion H; subst response.
           rewrite Hjson in Hb. inversion Hb. reflexivity.
        -- intros response H Hs. inversion H; subst response. contradiction.
        -- intros e' [H|(response & H & _ & Hj)]; [discriminate H|].
           inversion H; subst response. rewrite Hjson in Hj. discriminate Hj.
    + split; [|split; [|split; [|split; [|split; [|split]]]]].
      * eexists. reflexivity.
      * reflexivity.
      * reflexivity.
      * reflexivity.
      * intros response b H Hs. inversion H; subst response. contradiction.
      * intros response H _. inversion H; subst response. reflexivity.
      * intros e' [H|(response & H & Hs & _)]; [discriminate H|].
        inversion H; subst response. contradiction.
Qed.

Lemma fetch_wikidata_info_run (session : Session) (castle_name : string) (w : World) :
  let failed (e : Exception) :=
    (@inr Exception Json (JObj []),
     with_log w [mkLog ERROR ("Error fetching Wikidata info for " ++ castle_name
                                ++ ": " ++ exc_text e)%string]) in
  _fetch_wikidata_info session castle_name w
  = match session wikidata_api
            [("query", sparql_query castle_name); ("format", "json")] with
    | inl e => failed e
    | inr response =>
        if status response =? 200
        then match json response with
             | inl e => failed e
             | inr data =>
                 match json_get data "results" (JObj []) with
                 | inl e => failed e
                 | inr results =>
                     match json_get results "bindings" (JArr []) with
                     | inl e => failed e
                     | inr bindings => (inr bindings, w)
                     end
                 end
             end
        else (inr (JObj []),
              with_log w [mkLog WARNING ("Wikidata API error for " ++ castle_name ++ ": "
                                           ++ str_int (status response))%string])
    end.
Proof.
  intros failed. unfold failed, _fetch_wikidata_info, try_except, bind, lift.
  destruct (session wikidata_api _) as [e|response]; [reflexivity|].
  destruct (status response =? 200); [|reflexivity].
  destruct (json response) as [e|data]; [reflexivity|].
  destruct (json_get data "results" (JObj [])) as [e|results]; [reflexivity|].
  destruct (json_get results "bindings" (JArr [])); reflexivity.
Qed.

(** X19.  [_fetch_wikidata_info] never raises and adds at most one
    record to the log, changing nothing else.  With status 200 and a
    decoded body: a dict without "results" gives an empty list; a dict
    whose "results" is a dict gives its "bindings", or an empty list
    when there is none; a body that is not a dict, or a "results" that
    is not a dict, is swallowed as an error: the result is an empty dict
    and one ERROR record holds the [AttributeError] text. *)
Theorem fetch_wikidata_info_never_raises
    (session : Session) (castle_name : string) (w : World) :
  let request :=
    session wikidata_api [("query", sparql_query castle_name); ("format", "json")] in
  let run := _fetch_wikidata_info session castle_name w in
  let swallowed (v : Json) :=
    run = (inr (JObj []),
           with_log w [mkLog ERROR ("Error fetching Wikidata info for " ++ castle_name
                                      ++ ": '" ++ type_name v
                                      ++ "' object has no attribute 'get'")%string]) in
  (exists v records, run = (inr v, with_log w records) /\ (List.length records <= 1)%nat)
  /\ (forall response data,
        request = inr response -> status response = 200 ->
        json response = inr data ->
        match data with
        | JObj members =>
            match dict_get "results" members with
            | None => run = (inr (JArr []), w)
            | Some (JObj results) =>
                run = (inr (match dict_get "bindings" results with
                            | Some bindings => bindings
                            | None => JArr []
                            end), w)
            | Some other => swallowed other
            end
        | _ => swallowed data
        end).
Proof.
  intros request run swallowed. unfold swallowed, run.
  rewrite fetch_wikidata_info_run. subst request. cbv zeta.
  assert (Hnil : forall w0, w0 = with_log w0 []).
  { intros w0. unfold with_log. rewrite app_nil_r. destruct w0; reflexivity. }
  destruct (session wikidata_api _) as [e|r].
  { split; [eexists; eexists; split; [reflexivity|simpl; lia]|].
    intros response data H. discriminate H. }
  destruct (Z.eqb_spec (status r) 200) as [H200|Hne].
  2:{ split; [eexists; eexists; split; [reflexivity|simpl; lia]|].
      intros response data [= <-] H. contradiction. }
  destruct (json r) as [e|data] eqn:Hjson.
  { split; [eexists; eexists; split; [reflexivity|simpl; lia]|].
    intros response data H _ Hd. inversion H; subst response.
    rewrite Hjson in Hd. discriminate Hd. }
  split.
  - destruct (json_get data "results" (JObj [])) as [e|results];
      [eexists; eexists; split; [reflexivity|simpl; lia]|].
    destruct (json_get results "bindings" (JArr [])) as [e|bindings];
      [eexists; eexists; split; [reflexivity|simpl; lia]|].
    exists bindings, []. split; [rewrite <- Hnil; reflexivity|simpl; lia].
  - intros response data' H _ Hd. inversion H; subst response.
    rewrite Hjson in Hd. inversion Hd; subst data'.
    destruct data as [| | | | | |members]; try reflexivity.
    cbn [json_get].
    destruct (dict_get "results" members) as [results|]; [|reflexivity].
    destruct results; reflexivity.
Qed.

(** ** Properties of the formatted sentence *)

(** X20.  [generate_cultural_significance] never raises: for every
    castle it returns the first template with the style and the cultural
    context put in as they are (braces in a style are not read as
    fields); the period, superlative and cultural meaning it computes
    are not used.  The context names every field of all three templates,
    so none of them could raise [KeyError]. *)
Theorem cultural_significance_always_formats (castle : CastleData) :
  generate_cultural_significance castle
  = Some (inr ("represents the " ++ architectural_style castle
                 ++ " architectural achievement and "
                 ++ _determine_cultural_context castle ++ " heritage")%string)
  /\ (forall template,
        In template cultural_significance_templates ->
        exists text, str_format template (context_elements castle) = Some (inr text)).
Proof.
  split; [reflexivity|].
  intros template [<-|[<-|[<-|[]]]]; eexists; reflexivity.
Qed.

(** ** The worked example, continued *)


Lemma missing_table_fails_every_item_example :
  let w := mkWorld [] 0%Q [] [] 0 in
  sink_ready (database w) = false
  /\ result (process_thousands_of_castles example_json_dumps example_generate
               example_latency example_pipeline "three" 2) w
     = inr 0
  /\ database (after (process_thousands_of_castles example_json_dumps example_generate
                        example_latency example_pipeline "three" 2) w)
     = [].
Proof.
  intros w. split; [reflexivity|].
  destruct (missing_table_fails_every_item example_json_dumps example_generate
              example_latency example_pipeline "three" 2 w)
    as (_ & _ & Hres & Hdb).
  - reflexivity.
  - lia.
  - split; [exact Hres|exact Hdb].
Defined.

Lemma sink_after_run_example :
  let w' := after (process_thousands_of_castles example_json_dumps example_generate
                     example_latency example_pipeline "three" 2) ready_world in
  (exists row, rows_for "X1" (database w') = [row])
  /\ rows_for "X2" (database w') = []
  /\ (exists row, rows_for "X3" (database w') = [row]).
Proof.
  intros w'.
  destruct (sink_after_run example_json_dumps example_generate example_latency
              example_pipeline "three" 2 ready_world)
    as (Hrow & Hnone & _).
  - reflexivity.
  - lia.
  - split; [|split].
    + destruct (Hrow (example_castle "X1") (mkNarrative "X1" "text" (1 # 2)%Q))
        as (rowid & now & c & n & _ & _ & _ & Hrows).
      * left. reflexivity.
      * reflexivity.
      * eexists. exact Hrows.
    + apply (Hnone "X2"). intros castle narrative [<-|[<-|[<-|[]]]] Hg;
        inversion Hg; discriminate.
    + destruct (Hrow (example_castle "X3") (mkNarrative "X3" "text" (1 # 2)%Q))
        as (rowid & now & c & n & _ & _ & _ & Hrows).
      * right. right. left. reflexivity.
      * reflexivity.
      * eexists. exact Hrows.
Defined.

Lemma constructed_processor_counts_generated_example :
  0 < 2
  /\ result (bind ScalableCastleProcessor_init
               (fun _ => process_thousands_of_castles example_json_dumps
                           example_generate example_latency example_pipeline
                           "three" 2))
            (mkWorld [] 0%Q [] [] 0)
     = inr 2.
Proof.
  split; [lia|].
  apply (proj1 (constructed_processor_counts_generated example_json_dumps
                  example_generate example_latency example_pipeline "three" 2
                  (mkWorld [] 0%Q [] [] 0) ltac:(lia))).
Defined.

Lemma store_narrative_gives_fresh_rowid_example :
  let first := mkNarrative "X1" "draft" (1 # 5)%Q in
  let second := mkNarrative "X1" "final" (4 # 5)%Q in
  let w := after (_store_narrative example_json_dumps first) ready_world in
  map SqlRow.id (rows_for "X1" (database w)) = [1]
  /\ exists rowid,
       map SqlRow.id (rows_for "X1"
                     (database (after (_store_narrative example_json_dumps second) w)))
       = [rowid]
       /\ 1 < rowid.
Proof.
  intros first second w. split; [reflexivity|].
  destruct (store_narrative_gives_fresh_rowid example_json_dumps second w)
    as (rowid & Hrow & Hlt & _).
  - reflexivity.
  - exists rowid. split; [exact Hrow|].
    inversion Hlt as [|r rest Hr _]. exact Hr.
Defined.

Lemma stored_rows_never_hold_the_country_example :
  Forall written_by_store
         (sink_rows (database
            (after (process_thousands_of_castles example_json_dumps example_generate
                      example_latency example_pipeline "three" 2) ready_world))).
Proof.
  apply (proj2 (stored_rows_never_hold_the_country example_json_dumps example_generate
                  example_latency example_pipeline) "three" 2 ready_world).
  - lia.
  - constructor.
Defined.

Lemma rerun_does_not_grow_sink_example :
  let w1 := after (process_thousands_of_castles example_json_dumps example_generate
                     example_latency example_pipeline "three" 2) ready_world in
  let w2 := after (process_thousands_of_castles example_json_dumps example_generate
                     example_latency example_pipeline "three" 50) w1 in
  List.length (sink_rows (database w1)) = 2%nat
  /\ List.length (sink_rows (database w2)) = 2%nat.
Proof.
  intros w1 w2.
  assert (H1 : List.length (sink_rows (database w1)) = 2%nat) by reflexivity.
  split; [exact H1|]. rewrite <- H1.
  apply (rerun_does_not_grow_sink example_json_dumps example_generate example_latency
           example_pipeline "three" 2 50 ready_world).
  - reflexivity.
  - unfold unique_keys. simpl. constructor.
  - lia.
  - lia.
Defined.


Lemma empty_pipeline_runs_nothing_example :
  result (process_thousands_of_castles example_json_dumps example_generate
            example_latency (fun _ => []) "none" 50) ready_world
  = inr 0
  /\ trace (after (process_thousands_of_castles example_json_dumps example_generate
                     example_latency (fun _ => []) "none" 50) ready_world)
     = [].
Proof.
  destruct (empty_pipeline_runs_nothing example_json_dumps example_generate
              example_latency (fun _ => []) "none" 50 ready_world)
    as (Hres & _ & Htr & _).
  - reflexivity.
  - discriminate.
  - split; [exact Hres|exact Htr].
Defined.


Lemma gothic_by_substring_but_not_by_key_example :
  let castle := mkCastleData "Strawberry Hill" "" "" None "Neo-Gothic Revival"
                             [] [] [] None [] [] in
  List.length (generate_legends castle) = 1%nat
  /\ _derive_cultural_meaning castle = "political and cultural authority".
Proof.
  intros castle. split; [reflexivity|].
  apply (proj2 (gothic_by_substring_but_not_by_key castle eq_refl
                  ltac:(discriminate))).
Defined.
